(** * rango: the gateway's bootstrap, admission front-end and ingest loop

    A shallow embedding of [cmd/rango/rango.go].  Go strings are byte
    strings and are modelled by [string] (a list of [ascii] bytes); Go maps
    with string keys are [gmap string _]; [*T] pointers that may be nil are
    [option T]; an [error] is carried by its message, [nil] being [None].

    The packages the file imports are not part of the development: what the
    code calls in them is gathered in type classes ([AuthPkg], [Platform]),
    so every statement holds for all their implementations. *)

From Stdlib Require Import ZArith Ascii String.
From stdpp Require Import gmap strings list.

Local Open Scope string_scope.
Local Open Scope list_scope.

(** ** Go's [strings] package, as far as rango.go calls it *)

Module strings.

(** [strings.HasPrefix(s, prefix)] *)
Definition HasPrefix (s prefix : string) : bool := String.prefix prefix s.

(** [s[n:]] for [n <= len(s)] *)
Fixpoint sliceFrom (n : nat) (s : string) : string :=
  match n, s with
  | O, _ => s
  | S n', String _ s' => sliceFrom n' s'
  | S _, EmptyString => EmptyString
  end.

(** [strings.TrimPrefix(s, prefix)] *)
Definition TrimPrefix (s prefix : string) : string :=
  if HasPrefix s prefix then sliceFrom (String.length prefix) s else s.

(** [strings.Split(s, sep)] for a one-byte separator, the only kind
    rango.go passes: the segments between the occurrences of [sep], in
    order; one more segment than there are separators, so never empty. *)
Fixpoint Split (s : string) (sep : ascii) : list string :=
  match s with
  | EmptyString => [EmptyString]
  | String c s' =>
      if Ascii.eqb c sep then EmptyString :: Split s' sep
      else match Split s' sep with
           | seg :: segs => String c seg :: segs
           | [] => [String c EmptyString]
           end
  end.

(** [strings.IndexByte(s, c) >= 0] *)
Fixpoint ContainsByte (s : string) (c : ascii) : bool :=
  match s with
  | EmptyString => false
  | String c' s' => Ascii.eqb c' c || ContainsByte s' c
  end.

(** [strings.ToLower] on one ASCII byte *)
Definition lowerByte (c : ascii) : ascii :=
  let n := nat_of_ascii c in
  if (65 <=? n)%nat && (n <=? 90)%nat then ascii_of_nat (n + 32) else c.

(** [strings.ToLower] restricted to ASCII input, where it maps ['A'..'Z']
    to ['a'..'z'] byte by byte. *)
Fixpoint ToLowerASCII (s : string) : string :=
  match s with
  | EmptyString => EmptyString
  | String c s' => String (lowerByte c) (ToLowerASCII s')
  end.

End strings.

(** [strings.Join(elems, sep)] for a one-byte separator. *)
Fixpoint joinBy (sep : ascii) (elems : list string) : string :=
  match elems with
  | [] => EmptyString
  | [x] => x
  | x :: elems' => x +:+ String sep (joinBy sep elems')
  end.

(** ** The Access Matrix from the environment *)

Section Matrix.

(** [strings.ToLower]: Unicode-aware in Go; the matrix code only needs it
    to be a function on strings. *)
Variable ToLower : string -> string.

(** [filterPrefixed]: the records of [arr] that start with [prefix], in
    order. *)
Fixpoint filterPrefixed (prefix : string) (arr : list string) : list string :=
  match arr with
  | [] => []
  | rec :: arr' =>
      if strings.HasPrefix rec prefix
      then rec :: filterPrefixed prefix arr'
      else filterPrefixed prefix arr'
  end.

(** One turn of the loop of [envToMatrix].  [None] is the run-time panic
    of an index out of range ([kv[1]] on a record without ['=']). *)
Definition envToMatrix_step (trimPrefix : string)
    (matr : gmap string (list string)) (rec : string)
  : option (gmap string (list string)) :=
  let kv := strings.Split rec "=" in
  kv0 ← kv !! 0%nat;
  let key := ToLower (strings.TrimPrefix kv0 trimPrefix) in
  kv1 ← kv !! 1%nat;
  let value := strings.Split kv1 "," in
  Some (<[key := value]> matr).

Fixpoint envToMatrix_loop (trimPrefix : string)
    (matr : gmap string (list string)) (env : list string)
  : option (gmap string (list string)) :=
  match env with
  | [] => Some matr
  | rec :: env' =>
      matr' ← envToMatrix_step trimPrefix matr rec;
      envToMatrix_loop trimPrefix matr' env'
  end.

(** [envToMatrix] *)
Definition envToMatrix (env : list string) (trimPrefix : string)
  : option (gmap string (list string)) :=
  envToMatrix_loop trimPrefix ∅ env.

(** [getRBACConfig], on the list [os.Environ()] returns. *)
Definition getRBACConfig (envs : list string)
  : option (gmap string (list string)) :=
  let rbacEnv := filterPrefixed "RANGO_RBAC_" envs in
  envToMatrix rbacEnv "RANGO_RBAC_".

End Matrix.

(** ** [net/http]: headers, requests and the default mux *)

Module http.

Definition StatusMovedPermanently : Z := 301.
Definition StatusBadRequest : Z := 400.
Definition StatusUnauthorized : Z := 401.
Definition StatusNotFound : Z := 404.

Definition isUpper (c : ascii) : bool :=
  let n := nat_of_ascii c in (65 <=? n)%nat && (n <=? 90)%nat.
Definition isLower (c : ascii) : bool :=
  let n := nat_of_ascii c in (97 <=? n)%nat && (n <=? 122)%nat.
Definition isDigit (c : ascii) : bool :=
  let n := nat_of_ascii c in (48 <=? n)%nat && (n <=? 57)%nat.

(** [textproto.validHeaderFieldByte]: the token characters of RFC 7230. *)
Definition validHeaderFieldByte (c : ascii) : bool :=
  isUpper c || isLower c || isDigit c ||
  existsb (Nat.eqb (nat_of_ascii c))
    [33; 35; 36; 37; 38; 39; 42; 43; 45; 46; 94; 95; 96; 124; 126]%nat.

Fixpoint allValid (s : string) : bool :=
  match s with
  | EmptyString => true
  | String c s' => validHeaderFieldByte c && allValid s'
  end.

(** The loop of [textproto.canonicalMIMEHeaderKey]: upper case at the
    start and after each dash, lower case elsewhere. *)
Fixpoint canonicalLoop (upper : bool) (s : string) : string :=
  match s with
  | EmptyString => EmptyString
  | String c s' =>
      let c' :=
        if upper && isLower c then ascii_of_nat (nat_of_ascii c - 32)
        else if negb upper && isUpper c then ascii_of_nat (nat_of_ascii c + 32)
        else c in
      String c' (canonicalLoop (Ascii.eqb c' "-") s')
  end.

(** [textproto.CanonicalMIMEHeaderKey]: a key with a byte that is not a
    token character is returned unchanged. *)
Definition CanonicalMIMEHeaderKey (s : string) : string :=
  if allValid s then canonicalLoop true s else s.

(** [http.Header] is [map[string][]string]. *)
Section Header.
Implicit Type h : gmap string (list string).

Definition Get h (key : string) : string :=
  match h !! CanonicalMIMEHeaderKey key with
  | Some (v :: _) => v
  | _ => EmptyString
  end.

Definition Set_ h (key value : string) : gmap string (list string) :=
  <[CanonicalMIMEHeaderKey key := [value]]> h.

Definition Del h (key : string) : gmap string (list string) :=
  delete (CanonicalMIMEHeaderKey key) h.
End Header.

(** [http.Request], with the fields the gateway and the mux read:
    [r.Method], [r.URL.Path] and [r.Header]. *)
Record Request := {
  Method : string;
  URLPath : string;
  Header : gmap string (list string)
}.

Definition withHeader (r : Request) (h : gmap string (list string)) : Request :=
  {| Method := Method r; URLPath := URLPath r; Header := h |}.

End http.

(** ** What the program does to the outside: a trace of events *)

Definition error := string.

Module zerolog.
Inductive Level :=
| DebugLevel | InfoLevel | WarnLevel | ErrorLevel | FatalLevel | PanicLevel
| NoLevel | Disabled | TraceLevel.
End zerolog.

Module kgo.
(** [kgo.Record] *)
Record Record_ := {
  Topic : string;
  Key : string;
  Value : string;
  Partition : Z;
  Offset : Z
}.

(** [kgo.FetchError] *)
Record FetchError := {
  ErrTopic : string;
  ErrPartition : Z;
  Err : error
}.

(** [kgo.Fetches], by what its methods [Errors()] and [Records()] return. *)
Record Fetches := {
  Errors : list FetchError;
  Records : list Record_
}.

(** The client options rango.go passes to [kgo.NewClient]. *)
Inductive Opt :=
| SeedBrokers (seeds : list string)
| ConsumerGroup (group : string)
| ConsumeTopics (topics : list string)
| DisableAutoCommit.
End kgo.

Inductive LogArg :=
| ArgInt (n : Z)
| ArgStr (s : string).

Inductive Event :=
| EvWriteHeader (statusCode : Z)               (* w.WriteHeader *)
| EvNewClient (r : http.Request)               (* routing.NewClient(hub, w, r) *)
| EvLog (level : zerolog.Level) (format : string) (args : list LogArg)
| EvSleep (ms : Z)                             (* time.Sleep *)
| EvKgoNewClient (opts : list kgo.Opt)         (* kgo.NewClient *)
| EvPollFetches                                (* kgoClient.PollFetches *)
| EvReceiveMsg (r : kgo.Record_)               (* hub.ReceiveMsg *)
| EvCommitRecords (r : kgo.Record_).           (* kgoClient.CommitRecords *)

(** ** [pkg/auth], by its interface *)

(** [crypto/rsa.PublicKey] *)
Record rsa_PublicKey := { N : Z; E : Z }.

(** The claims of a validated token. *)
Record Auth := { UID : string; Role : string }.

(** [auth.KeyStore], with the field rango.go reads. *)
Record KeyStore := { PublicKey : option rsa_PublicKey }.

Class AuthPkg := {
  ParseAndValidate : string -> option rsa_PublicKey -> Auth * option error;
  LoadPublicKeyFromString : string -> KeyStore -> KeyStore * option error;
  LoadPublicKeyFromFile : string -> KeyStore -> KeyStore * option error
}.

(** ** The admission front-end *)

Definition prefix : string := "Bearer ".

Definition httpHanlder := http.Request -> list Event.

Definition token (r : http.Request) : string :=
  let authHeader := http.Get (http.Header r) "Authorization" in
  if negb (strings.HasPrefix authHeader prefix) then ""
  else strings.sliceFrom (String.length prefix) authHeader.

Definition authHandler `{A : AuthPkg} (h : httpHanlder)
    (key : option rsa_PublicKey) (mustAuth : bool) : httpHanlder :=
  fun r =>
    let '(auth, err) := ParseAndValidate (token r) key in
    if bool_decide (err ≠ None) && mustAuth then
      [EvWriteHeader http.StatusUnauthorized]
    else
      let r' :=
        if bool_decide (err = None) then
          let hd := http.Set_ (http.Header r) "JwtUID" (UID auth) in
          http.withHeader r (http.Set_ hd "JwtRole" (Role auth))
        else
          let hd := http.Del (http.Header r) "JwtUID" in
          http.withHeader r (http.Del hd "JwtRole") in
      h r'.

(** [wsHandler] of [main]: [routing.NewClient] upgrades the connection and
    creates the Session. *)
Definition wsHandler : httpHanlder := fun r => [EvNewClient r].

(** The three [http.HandleFunc] registrations of [main]. *)
Definition handlers `{A : AuthPkg} (pub : option rsa_PublicKey)
  : list (string * httpHanlder) :=
  [ ("/private", authHandler wsHandler pub true);
    ("/public", authHandler wsHandler pub false);
    ("/", authHandler wsHandler pub false) ].

Definition endsInSlash (pattern : string) : bool :=
  match String.get (String.length pattern - 1) pattern with
  | Some c => Ascii.eqb c "/"
  | None => false
  end.

(** [ServeMux.match]: an exact match first, else the longest registered
    pattern ending in a slash that is a prefix of the path. *)
Fixpoint muxExact (m : list (string * httpHanlder)) (path : string)
  : option httpHanlder :=
  match m with
  | [] => None
  | (pattern, h) :: m' =>
      if String.eqb pattern path then Some h else muxExact m' path
  end.

Fixpoint muxLongest (m : list (string * httpHanlder)) (path : string)
    (best : option (string * httpHanlder)) : option (string * httpHanlder) :=
  match m with
  | [] => best
  | (pattern, h) :: m' =>
      let better :=
        match best with
        | Some (p, _) => (String.length p <? String.length pattern)%nat
        | None => true
        end in
      if endsInSlash pattern && strings.HasPrefix path pattern && better
      then muxLongest m' path (Some (pattern, h))
      else muxLongest m' path best
  end.

Definition muxMatch (m : list (string * httpHanlder)) (path : string)
  : option httpHanlder :=
  match muxExact m path with
  | Some h => Some h
  | None => snd <$> muxLongest m path None
  end.

(** One element of a path in [path.Clean], on the stack of the elements
    kept so far (the last one first): an empty element and [.] are dropped;
    [..] removes the element before it, is dropped at the root of a rooted
    path, and is kept at the start of a path that is not rooted. *)
Definition cleanStep (rooted : bool) (kept : list string) (elem : string)
  : list string :=
  if String.eqb elem "" || String.eqb elem "." then kept
  else if String.eqb elem ".." then
    match kept with
    | top :: rest => if String.eqb top ".." then elem :: kept else rest
    | [] => if rooted then [] else [elem]
    end
  else elem :: kept.

(** [path.Clean]: the shortest path naming the same place, by lexical
    processing of the elements between slashes. *)
Definition path_Clean (p : string) : string :=
  match p with
  | EmptyString => "."
  | String c _ =>
      let rooted := Ascii.eqb c "/" in
      let elems := rev (fold_left (cleanStep rooted) (strings.Split p "/") []) in
      if rooted then String "/" (joinBy "/" elems)
      else match elems with
           | [] => "."
           | _ => joinBy "/" elems
           end
  end.

(** [cleanPath] of [net/http]: the canonical path of [p], with a leading
    slash, and with the trailing slash of [p] kept. *)
Definition cleanPath (p : string) : string :=
  match p with
  | EmptyString => "/"
  | String c _ =>
      let p := if Ascii.eqb c "/" then p else String "/" p in
      let np := path_Clean p in
      if endsInSlash p && negb (String.eqb np "/") then
        if (String.length p =? String.length np + 1)%nat && strings.HasPrefix p np
        then p
        else np +:+ "/"
      else np
  end.

(** [ServeMux.shouldRedirectRLocked]: [path] is not registered and
    [path/] is.  No pattern [main] registers names a host, so the lookups
    of [host+path] find nothing and are left out. *)
Definition shouldRedirect (m : list (string * httpHanlder)) (path : string)
  : bool :=
  if bool_decide (is_Some (muxExact m path)) then false
  else if String.eqb path "" then false
  else if bool_decide (is_Some (muxExact m (path +:+ "/")))
       then negb (endsInSlash path)
       else false.

(** [http.RedirectHandler(url, StatusMovedPermanently)] *)
Definition redirectHandler : httpHanlder :=
  fun _ => [EvWriteHeader http.StatusMovedPermanently].

(** [ServeMux.handler]: the matching handler, or [NotFoundHandler()]. *)
Definition muxHandler (m : list (string * httpHanlder)) (path : string)
  : httpHanlder :=
  match muxMatch m path with
  | Some h => h
  | None => fun _ => [EvWriteHeader http.StatusNotFound]
  end.

(** [ServeMux.Handler]: a [CONNECT] request is dispatched on its path as
    it is; any other request whose path is not clean is redirected to the
    clean path, and no registered handler runs. *)
Definition ServeMux_Handler (m : list (string * httpHanlder))
    (r : http.Request) : httpHanlder :=
  if String.eqb (http.Method r) "CONNECT" then
    if shouldRedirect m (http.URLPath r) then redirectHandler
    else muxHandler m (http.URLPath r)
  else
    let path := cleanPath (http.URLPath r) in
    if shouldRedirect m path then redirectHandler
    else if negb (String.eqb path (http.URLPath r)) then redirectHandler
    else muxHandler m (http.URLPath r).

(** [ServeMux.ServeHTTP] of the default mux.  Its first test is
    [r.RequestURI == "*"]; the server reads the request target [*] into
    the path [*] and no other target into that path, so the test is made on
    the path. *)
Definition ServeHTTP (m : list (string * httpHanlder)) : httpHanlder :=
  fun r =>
    if String.eqb (http.URLPath r) "*" then
      [EvWriteHeader http.StatusBadRequest]
    else ServeMux_Handler m r r.

(** ** The process: flags, environment and the packages [main] drives *)

(** The command-line flags after [flag.Parse()]. *)
Record Flags := {
  wsAddr : string;
  pubKey : string;
  exName : string
}.

(** The defaults given in the [flag.String] declarations. *)
Definition defaultFlags : Flags :=
  {| wsAddr := ""; pubKey := "config/rsa-key.pub"; exName := "rango.events" |}.

Class Platform := {
  (** [os.Environ()] and [os.LookupEnv] *)
  Environ : list string;
  LookupEnv : string -> option string;
  (** [strings.ToLower] *)
  ToLower : string -> string;
  (** [zerolog.ParseLevel]; [None] is its error *)
  ParseLevel : string -> option zerolog.Level;
  (** [uuid.NewString()] *)
  uuid_NewString : string;
  (** the error of [kgo.NewClient], [None] when the client is created *)
  kgo_NewClient : list kgo.Opt -> option error;
  (** what the [n]-th call of [kgoClient.PollFetches] returns *)
  PollFetches : nat -> kgo.Fetches;
  (** the error [http.ListenAndServe] returns; [None] while it serves and
      does not return *)
  ListenAndServe : string -> option error
}.

(** [os.Getenv]: the empty string for an unset variable. *)
Definition Getenv `{P : Platform} (name : string) : string :=
  match LookupEnv name with
  | Some v => v
  | None => ""
  end.

(** [setupLogger]: the global level it sets; [None] is its [panic(err)]. *)
Definition setupLogger `{P : Platform} : option zerolog.Level :=
  match LookupEnv "LOG_LEVEL" with
  | Some logLevel =>
      match ParseLevel (ToLower logLevel) with
      | None => None
      | Some level => Some level
      end
  | None => Some zerolog.DebugLevel
  end.

(** [getPublicKey].  [err] is the named result: it starts as [nil] and no
    statement assigns it; the results of the two loaders are dropped. *)
Definition getPublicKey `{A : AuthPkg} `{P : Platform} (flags : Flags)
  : option rsa_PublicKey * option error :=
  let err : option error := None in
  let ks := {| PublicKey := None |} in
  let encPem := Getenv "JWT_PUBLIC_KEY" in
  let '(ks, _) :=
    if negb (String.eqb encPem "")
    then LoadPublicKeyFromString encPem ks
    else LoadPublicKeyFromFile (pubKey flags) ks in
  match err with
  | Some e => (None, Some e)
  | None =>
      match PublicKey ks with
      | None => (None, Some "failed")
      | Some pub => (Some pub, None)
      end
  end.

Definition getEnv `{P : Platform} (name value : string) : string :=
  let v := Getenv name in
  if String.eqb v "" then value else v.

Definition getServerAddress `{P : Platform} (flags : Flags) : string :=
  if negb (String.eqb (wsAddr flags) "") then wsAddr flags
  else
    let host := getEnv "RANGER_HOST" "0.0.0.0" in
    let port := getEnv "RANGER_PORT" "8080" in
    host +:+ ":" +:+ port.

(** The options of the [kgo.NewClient] call in [main]. *)
Definition consumerOpts `{P : Platform} (flags : Flags) : list kgo.Opt :=
  let kafkaBrokers := strings.Split (Getenv "KAFKA_BROKERS") "," in
  [ kgo.SeedBrokers kafkaBrokers;
    kgo.ConsumerGroup ("rango-" +:+ uuid_NewString);
    kgo.ConsumeTopics [exName flags];
    kgo.DisableAutoCommit ].

(** How the main goroutine ends. *)
Inductive Exit :=
| Returned       (* [main] returns *)
| Fatal          (* [log.Fatal().Msg]: zerolog calls [os.Exit(1)] *)
| Panicked       (* an unrecovered panic *)
| Serving.       (* [http.ListenAndServe] has not returned *)

(** The exit status of the process, as the Go runtime sets it. *)
Definition exitCode (e : Exit) : option Z :=
  match e with
  | Returned => Some 0%Z
  | Fatal => Some 1%Z
  | Panicked => Some 2%Z
  | Serving => None
  end.

(** [main], on the main goroutine: its events and how it ends.  The
    goroutines it starts (the ingest loop below, the Hub, the metrics
    listener) run beside it. *)
Definition main `{A : AuthPkg} `{P : Platform} (flags : Flags) : list Event * Exit :=
  match setupLogger with
  | None => ([], Panicked)
  | Some _ =>
    match getRBACConfig ToLower Environ with
    | None => ([], Panicked)
    | Some rbac =>
      let '(pub, err) := getPublicKey flags in
      match err with
      | Some e =>
          ([ EvLog zerolog.ErrorLevel "Loading public key failed: %s" [ArgStr e];
             EvSleep 2000 ], Returned)
      | None =>
        let opts := consumerOpts flags in
        match kgo_NewClient opts with
        | Some e =>
            ([ EvKgoNewClient opts;
               EvLog zerolog.ErrorLevel "Failed to create consumer: %s" [ArgStr e] ],
             Returned)
        | None =>
          let started :=
            [ EvKgoNewClient opts;
              EvLog zerolog.InfoLevel "Starting rango..." [];
              EvLog zerolog.DebugLevel "Listenning on %s"
                [ArgStr (getServerAddress flags)] ] in
          match ListenAndServe (getServerAddress flags) with
          | Some e =>
              (started ++
               [EvLog zerolog.FatalLevel ("ListenAndServe failed: " +:+ e) []],
               Fatal)
          | None => (started, Serving)
          end
        end
      end
    end
  end.

(** ** The ingest loop *)

(** The log line of one fetch error, index first. *)
Definition logFetchError (i : nat) (fe : kgo.FetchError) : Event :=
  EvLog zerolog.ErrorLevel "Fetch error %d: %v"
    [ArgInt (Z.of_nat i); ArgStr (kgo.Err fe)].

(** The inner loop over [records]. *)
Fixpoint handRecords (records : list kgo.Record_) : list Event :=
  match records with
  | [] => []
  | r :: records' => EvReceiveMsg r :: EvCommitRecords r :: handRecords records'
  end.

(** One turn of the [for] loop of the goroutine, given what the poll
    returned. *)
Definition ingestTurn (fetches : kgo.Fetches) : list Event :=
  EvPollFetches
    :: imap logFetchError (kgo.Errors fetches)
    ++ handRecords (kgo.Records fetches).

(** The goroutine's [for { ... }], unrolled [fuel] turns from the [n]-th
    poll on.  The loop has no [break] or [return]: only [fuel] ends it. *)
Fixpoint ingestLoop `{P : Platform} (fuel : nat) (n : nat) : list Event :=
  match fuel with
  | O => []
  | S fuel' => ingestTurn (PollFetches n) ++ ingestLoop fuel' (S n)
  end.

(** ** The notions the statements are worded in *)

(** *** Environment records, roles and patterns, as the specification
    speaks of them *)

(** The name of an environment record [NAME=VALUE]: what precedes the
    first ['=']. *)
Fixpoint envName (rec : string) : string :=
  match rec with
  | EmptyString => EmptyString
  | String c rec' => if Ascii.eqb c "=" then EmptyString else String c (envName rec')
  end.

(** The value of an environment record: what follows the first ['=']. *)
Fixpoint envValue (rec : string) : string :=
  match rec with
  | EmptyString => EmptyString
  | String c rec' => if Ascii.eqb c "=" then rec' else envValue rec'
  end.

Definition rbacPrefix : string := "RANGO_RBAC_".

(** The role a [RANGO_RBAC_<ROLE>] variable governs: its name after the
    prefix, lowercased. *)
Definition roleOf (toLower : string -> string) (rec : string) : string :=
  toLower (strings.sliceFrom (String.length rbacPrefix) (envName rec)).

(** The comma-separated patterns of the variable's value. *)
Definition patternsOf (rec : string) : list string :=
  strings.Split (envValue rec) ",".

(** The records of [envs] that are [RANGO_RBAC_] variables for [role]. *)
Definition governs (toLower : string -> string) (role : string) (rec : string)
  : bool :=
  strings.HasPrefix rec rbacPrefix && String.eqb (roleOf toLower rec) role.

(** One entry per variable: as many entries as prefixed variables, each
    variable's role mapped to that variable's patterns. *)
Definition oneEntryPerVariable (toLower : string -> string)
    (envs : list string) : Prop :=
  ∃ matr, getRBACConfig toLower envs = Some matr
    ∧ size matr = List.length (filterPrefixed rbacPrefix envs)
    ∧ ∀ rec, rec ∈ envs → strings.HasPrefix rec rbacPrefix = true →
        matr !! roleOf toLower rec = Some (patternsOf rec).

(** A record of the form [NAME=VALUE] whose value has no ['=']. *)
Definition plainRecord (rec : string) : Prop :=
  strings.ContainsByte rec "=" = true
  ∧ strings.ContainsByte (envValue rec) "=" = false.

(** *** Intermediate values of the code *)

(** What [getPublicKey] makes of the KeyStore once loading is over. *)
Definition keyOf (ks : KeyStore) : option rsa_PublicKey * option error :=
  match PublicKey ks with
  | None => (None, Some "failed")
  | Some pub => (Some pub, None)
  end.

(** The KeyStore after the [if]/[else] of [getPublicKey]. *)
Definition loadedKeyStore `{A : AuthPkg} `{P : Platform} (flags : Flags) : KeyStore :=
  let ks := {| PublicKey := None |} in
  let encPem := Getenv "JWT_PUBLIC_KEY" in
  fst (if negb (String.eqb encPem "")
       then LoadPublicKeyFromString encPem ks
       else LoadPublicKeyFromFile (pubKey flags) ks).

(** The request [authHandler] hands on when validation succeeded. *)
Definition identified (r : http.Request) (auth : Auth) : http.Request :=
  http.withHeader r
    (http.Set_ (http.Set_ (http.Header r) "JwtUID" (UID auth))
       "JwtRole" (Role auth)).

(** The request [authHandler] hands on when validation failed. *)
Definition anonymous (r : http.Request) : http.Request :=
  http.withHeader r (http.Del (http.Del (http.Header r) "JwtUID") "JwtRole").

(** *** Properties of traces *)

(** Every commit in the trace comes right after the handoff of the same
    record to the Hub. *)
Definition handedBeforeCommitted (tr : list Event) : Prop :=
  ∀ pre post r, tr = pre ++ EvCommitRecords r :: post →
    ∃ pre', pre = pre' ++ [EvReceiveMsg r].

(** A wait within the backoff window of 250 ms to 5 s. *)
Definition backsOff (tr : list Event) : Prop :=
  ∃ ms, (250 ≤ ms ≤ 5000)%Z ∧ EvSleep ms ∈ tr.

Definition isPoll (ev : Event) : bool :=
  match ev with EvPollFetches => true | _ => false end.

(** *** Further notions: entries of the matrix, joins, projections of
    traces *)

(** The key [envToMatrix] computes for a record. *)
Definition entryKey (toLower : string -> string) (trimPrefix rec : string)
  : string :=
  toLower (strings.TrimPrefix (envName rec) trimPrefix).

(** The value [envToMatrix] computes for a record that has an ['=']. *)
Definition entryValue (rec : string) : list string :=
  strings.Split (envName (envValue rec)) ",".

(** [strings.Count(s, sep)] for a one-byte separator. *)
Fixpoint countByte (s : string) (c : ascii) : nat :=
  match s with
  | EmptyString => O
  | String c' s' => (if Ascii.eqb c' c then 1 else 0) + countByte s' c
  end.

(** The records handed to the Hub, in trace order. *)
Fixpoint received (tr : list Event) : list kgo.Record_ :=
  match tr with
  | [] => []
  | EvReceiveMsg r :: tr' => r :: received tr'
  | _ :: tr' => received tr'
  end.

(** The records committed, in trace order. *)
Fixpoint committed (tr : list Event) : list kgo.Record_ :=
  match tr with
  | [] => []
  | EvCommitRecords r :: tr' => r :: committed tr'
  | _ :: tr' => committed tr'
  end.

(** The records of [fuel] polls from the [n]-th on, in fetch order. *)
Fixpoint fetched `{P : Platform} (fuel n : nat) : list kgo.Record_ :=
  match fuel with
  | O => []
  | S fuel' => kgo.Records (PollFetches n) ++ fetched fuel' (S n)
  end.

(** The number of fetch errors of [fuel] polls from the [n]-th on. *)
Fixpoint fetchErrors `{P : Platform} (fuel n : nat) : nat :=
  match fuel with
  | O => O
  | S fuel' => List.length (kgo.Errors (PollFetches n)) + fetchErrors fuel' (S n)
  end.

Definition isLog (ev : Event) : bool :=
  match ev with EvLog _ _ _ => true | _ => false end.

(** ** Concrete collaborators, to run the code on *)

Definition demoKey : rsa_PublicKey := {| N := 3233; E := 17 |}.

(** A validator that accepts the token [good] only, and loaders that know
    one inline PEM and one key file. *)
Definition demoAuth : AuthPkg := {|
  ParseAndValidate tok _ :=
    if String.eqb tok "good"
    then ({| UID := "alice"; Role := "trader" |}, None)
    else ({| UID := ""; Role := "" |}, Some "invalid token");
  LoadPublicKeyFromString pem ks :=
    if String.eqb pem "PEM"
    then ({| PublicKey := Some demoKey |}, None)
    else (ks, Some "invalid pem");
  LoadPublicKeyFromFile path ks :=
    if String.eqb path "config/rsa-key.pub"
    then ({| PublicKey := Some {| N := 187; E := 7 |} |}, None)
    else (ks, Some "no such file")
|}.

(** Loaders that report an error although they have set the key. *)
Definition noisyAuth : AuthPkg := {|
  ParseAndValidate := @ParseAndValidate demoAuth;
  LoadPublicKeyFromString pem ks :=
    ({| PublicKey := Some demoKey |}, Some "trailing data");
  LoadPublicKeyFromFile path ks :=
    ({| PublicKey := Some demoKey |}, Some "trailing data")
|}.

Fixpoint lookupVar (vars : list (string * string)) (name : string)
  : option string :=
  match vars with
  | [] => None
  | (k, v) :: vars' => if String.eqb k name then Some v else lookupVar vars' name
  end.

Definition demoRecord (off : Z) : kgo.Record_ :=
  {| kgo.Topic := "rango.events"; kgo.Key := "eurusd.trades";
     kgo.Value := "{}"; kgo.Partition := 0; kgo.Offset := off |}.

Definition demoFetches (n : nat) : kgo.Fetches :=
  match n with
  | O => {| kgo.Errors :=
              [ {| kgo.ErrTopic := "rango.events"; kgo.ErrPartition := 0;
                   kgo.Err := "broker unreachable" |} ];
            kgo.Records := [demoRecord 0] |}
  | S _ => {| kgo.Errors := [];
              kgo.Records := [demoRecord (Z.of_nat n); demoRecord (Z.of_nat n + 100)] |}
  end.

(** A process environment made of [vars], with the outcome of creating the
    consumer and of listening. *)
Definition demoPlatform (vars : list (string * string))
    (clientErr listenErr : option error) : Platform := {|
  Environ := (λ kv, fst kv +:+ "=" +:+ snd kv) <$> vars;
  LookupEnv := lookupVar vars;
  ToLower := strings.ToLowerASCII;
  ParseLevel lvl := if String.eqb lvl "debug" then Some zerolog.DebugLevel
                    else if String.eqb lvl "info" then Some zerolog.InfoLevel
                    else None;
  uuid_NewString := "6ba7b810-9dad-11d1-80b4-00c04fd430c8";
  kgo_NewClient _ := clientErr;
  PollFetches := demoFetches;
  ListenAndServe _ := listenErr
|}.

(** An environment with role rules and an inline key. *)
Definition demoVars : list (string * string) :=
  [ ("PATH", "/bin"); ("RANGO_RBAC_TRADER", "trades,order");
    ("JWT_PUBLIC_KEY", "PEM"); ("KAFKA_BROKERS", "k1:9092,k2:9092") ].

(** An environment without a key, run where the key file is absent. *)
Definition noKeyVars : list (string * string) :=
  [ ("PATH", "/bin"); ("KAFKA_BROKERS", "k1:9092") ].

Definition noKeyFlags : Flags :=
  {| wsAddr := ""; pubKey := "/nonexistent.pub"; exName := "rango.events" |}.

Definition demoRequest (path : string) (hd : list (string * string))
  : http.Request :=
  {| http.Method := "GET";
     http.URLPath := path;
     http.Header := list_to_map ((λ kv, (fst kv, [snd kv])) <$> hd) |}.

(** * Properties *)

Example getRBACConfig_ex :
  getRBACConfig strings.ToLowerASCII
    ["PATH=/bin"; "RANGO_RBAC_TRADER=trades,order"; "RANGO_RBAC_Admin=a=b,c"]
  = Some (<["admin" := ["a"]]> (<["trader" := ["trades"; "order"]]> ∅)).
Proof. vm_compute. reflexivity. Qed.

Example canonical_ex :
  http.CanonicalMIMEHeaderKey "JwtUID" = "Jwtuid"
  ∧ http.CanonicalMIMEHeaderKey "JwtRole" = "Jwtrole"
  ∧ http.CanonicalMIMEHeaderKey "content-type" = "Content-Type"
  ∧ http.CanonicalMIMEHeaderKey "bad key" = "bad key".
Proof. repeat split; reflexivity. Qed.

Example token_ex :
  token (demoRequest "/private" [("Authorization", "Bearer good")]) = "good"
  ∧ token (demoRequest "/private" [("Authorization", "Basic good")]) = ""
  ∧ token (demoRequest "/private" []) = "".
Proof. repeat split; vm_compute; reflexivity. Qed.

Example serve_ex :
  ServeHTTP (handlers (A := demoAuth) (Some demoKey))
    (demoRequest "/private" [("Authorization", "Bearer good"); ("Jwtuid", "root")])
  = [EvNewClient
       (demoRequest "/private"
          [("Authorization", "Bearer good"); ("Jwtuid", "alice");
           ("Jwtrole", "trader")])].
Proof. vm_compute. reflexivity. Qed.

Example mux_ex :
  ServeHTTP (handlers (A := demoAuth) None) (demoRequest "//private" [])
  = [EvWriteHeader 301]
  ∧ ServeHTTP (handlers (A := demoAuth) None)
      (demoRequest "/public/../private" [])
    = [EvWriteHeader 301]
  ∧ ServeHTTP (handlers (A := demoAuth) None) (demoRequest "*" [])
    = [EvWriteHeader 400]
  ∧ cleanPath "/a/./b//c/../d/" = "/a/b/d/".
Proof. repeat split; vm_compute; reflexivity. Qed.

Example main_ex :
  snd (main (A := demoAuth) (P := demoPlatform demoVars None None) defaultFlags)
  = Serving.
Proof. vm_compute. reflexivity. Qed.

Example ingest_ex :
  ingestLoop (P := demoPlatform demoVars None None) 2 0
  = [ EvPollFetches;
      EvLog zerolog.ErrorLevel "Fetch error %d: %v"
        [ArgInt 0; ArgStr "broker unreachable"];
      EvReceiveMsg (demoRecord 0); EvCommitRecords (demoRecord 0);
      EvPollFetches;
      EvReceiveMsg (demoRecord 1); EvCommitRecords (demoRecord 1);
      EvReceiveMsg (demoRecord 101); EvCommitRecords (demoRecord 101) ].
Proof. vm_compute. reflexivity. Qed.

(** ** Strings *)

Lemma Split_nonempty (s : string) (sep : ascii) : strings.Split s sep ≠ [].
Proof.
  destruct s as [|c s]; simpl; [discriminate|].
  destruct (Ascii.eqb c sep); [discriminate|].
  destruct (strings.Split s sep); discriminate.
Qed.

Lemma Split_cons_ne (c sep : ascii) (s : string) :
  Ascii.eqb c sep = false →
  ∃ seg segs, strings.Split s sep = seg :: segs
    ∧ strings.Split (String c s) sep = String c seg :: segs.
Proof.
  intros Hc. simpl. rewrite Hc.
  destruct (strings.Split s sep) as [|seg segs] eqn:E.
  - by apply Split_nonempty in E.
  - eauto.
Qed.

Lemma Split_first (rec : string) :
  strings.Split rec "=" !! 0%nat = Some (envName rec).
Proof.
  induction rec as [|c rec IH]; [done|].
  destruct (Ascii.eqb c "=") eqn:Hc.
  - simpl. by rewrite Hc.
  - destruct (Split_cons_ne c "=" rec Hc) as (seg & segs & E & ->).
    rewrite E in IH. simpl in *. rewrite Hc. congruence.
Qed.

Lemma Split_second (rec : string) :
  strings.ContainsByte rec "=" = true →
  strings.Split rec "=" !! 1%nat = Some (envName (envValue rec)).
Proof.
  induction rec as [|c rec IH]; [done|].
  intros Hin. destruct (Ascii.eqb c "=") eqn:Hc.
  - simpl. rewrite Hc. simpl. apply Split_first.
  - destruct (Split_cons_ne c "=" rec Hc) as (seg & segs & E & ->).
    simpl in Hin. rewrite Hc in Hin. simpl in Hin.
    specialize (IH Hin). rewrite E in IH. simpl in *. by rewrite Hc.
Qed.

Lemma Split_second_none (rec : string) :
  strings.ContainsByte rec "=" = false →
  strings.Split rec "=" !! 1%nat = None.
Proof.
  induction rec as [|c rec IH]; [done|].
  simpl. intros Hin. apply orb_false_iff in Hin as [Hc Hin].
  rewrite Hc. specialize (IH Hin).
  destruct (strings.Split rec "=") as [|seg segs]; [done|]. exact IH.
Qed.

Lemma Split_absent (s : string) (sep : ascii) :
  strings.ContainsByte s sep = false → strings.Split s sep = [s].
Proof.
  induction s as [|c s IH]; [done|].
  simpl. intros Hin. apply orb_false_iff in Hin as [Hc Hin].
  rewrite Hc, (IH Hin). done.
Qed.

Lemma envName_absent (v : string) :
  strings.ContainsByte v "=" = false → envName v = v.
Proof.
  induction v as [|c v IH]; [done|].
  simpl. intros Hin. apply orb_false_iff in Hin as [Hc Hin].
  rewrite Hc. f_equal. auto.
Qed.

Lemma envName_app (name rest : string) :
  strings.ContainsByte name "=" = false →
  envName (name +:+ String "=" rest) = name.
Proof.
  induction name as [|c name IH]; [done|].
  simpl. intros Hin. apply orb_false_iff in Hin as [Hc Hin].
  rewrite Hc. f_equal. auto.
Qed.

Lemma envValue_app (name rest : string) :
  strings.ContainsByte name "=" = false →
  envValue (name +:+ String "=" rest) = rest.
Proof.
  induction name as [|c name IH]; [done|].
  simpl. intros Hin. apply orb_false_iff in Hin as [Hc Hin].
  rewrite Hc. auto.
Qed.

Lemma ContainsByte_app (a b : string) (c : ascii) :
  strings.ContainsByte (a +:+ b) c
  = strings.ContainsByte a c || strings.ContainsByte b c.
Proof.
  induction a as [|x a IH]; [done|]. simpl. rewrite IH. apply orb_assoc.
Qed.

Lemma HasPrefix_envName (p rec : string) :
  strings.ContainsByte p "=" = false →
  strings.HasPrefix rec p = true → strings.HasPrefix (envName rec) p = true.
Proof.
  unfold strings.HasPrefix. revert rec.
  induction p as [|a p IH]; intros rec Hp Hpre.
  - by destruct (envName rec).
  - simpl in Hp. apply orb_false_iff in Hp as [Ha Hp].
    destruct rec as [|b rec]; [done|]. simpl in Hpre.
    destruct (ascii_dec a b) as [<-|]; [|done].
    simpl. rewrite Ha. simpl.
    destruct (ascii_dec a a); [|done]. auto.
Qed.

Lemma TrimPrefix_envName (rec : string) :
  strings.HasPrefix rec rbacPrefix = true →
  strings.TrimPrefix (envName rec) rbacPrefix
  = strings.sliceFrom (String.length rbacPrefix) (envName rec).
Proof.
  intros Hpre. unfold strings.TrimPrefix.
  by rewrite HasPrefix_envName.
Qed.

(** ** The Access Matrix *)

Section MatrixFacts.

Variable toLower : string -> string.

Lemma envToMatrix_loop_snoc (p : string) (m : gmap string (list string))
    (env : list string) (rec : string) :
  envToMatrix_loop toLower p m (env ++ [rec])
  = envToMatrix_loop toLower p m env ≫= λ m', envToMatrix_step toLower p m' rec.
Proof.
  revert m. induction env as [|x env IH]; intros m; simpl.
  - by destruct (envToMatrix_step toLower p m rec).
  - destruct (envToMatrix_step toLower p m x); simpl; [apply IH | done].
Qed.

Lemma filterPrefixed_app (p : string) (xs ys : list string) :
  filterPrefixed p (xs ++ ys) = filterPrefixed p xs ++ filterPrefixed p ys.
Proof.
  induction xs as [|x xs IH]; [done|].
  simpl. destruct (strings.HasPrefix x p); simpl; by rewrite IH.
Qed.

Lemma filterPrefixed_idem (p : string) (xs : list string) :
  filterPrefixed p (filterPrefixed p xs) = filterPrefixed p xs.
Proof.
  induction xs as [|x xs IH]; [done|].
  simpl. destruct (strings.HasPrefix x p) eqn:Hx; [|done].
  simpl. by rewrite Hx, IH.
Qed.

Lemma filterPrefixed_elem (p : string) (xs : list string) (x : string) :
  x ∈ filterPrefixed p xs ↔ x ∈ xs ∧ strings.HasPrefix x p = true.
Proof.
  induction xs as [|y xs IH]; simpl.
  - split; [inversion 1 | intros [H _]; inversion H].
  - destruct (strings.HasPrefix y p) eqn:Hy; rewrite ?elem_of_cons, IH.
    + split; [intros [->|[? ?]]; auto | intros [[->|?] ?]; auto].
    + split; [intros [? ?]; auto | intros [[->|?] ?]; [congruence | auto]].
Qed.

(** The turn of the loop on a record with an ['=']: the key is the
    lowercased name without the prefix, the value the comma-split of the
    text between the first and the second ['=']. *)
Lemma envToMatrix_step_eq (p : string) (m : gmap string (list string))
    (rec : string) :
  strings.ContainsByte rec "=" = true →
  envToMatrix_step toLower p m rec
  = Some (<[toLower (strings.TrimPrefix (envName rec) p)
            := strings.Split (envName (envValue rec)) ","]> m).
Proof.
  intros Hin. unfold envToMatrix_step.
  rewrite Split_first. simpl. by rewrite (Split_second _ Hin).
Qed.

Lemma envToMatrix_step_panics (p : string) (m : gmap string (list string))
    (rec : string) :
  strings.ContainsByte rec "=" = false → envToMatrix_step toLower p m rec = None.
Proof.
  intros Hin. unfold envToMatrix_step.
  rewrite Split_first. simpl. by rewrite (Split_second_none _ Hin).
Qed.

Lemma envToMatrix_step_plain (m : gmap string (list string)) (rec : string) :
  strings.HasPrefix rec rbacPrefix = true → plainRecord rec →
  envToMatrix_step toLower rbacPrefix m rec
  = Some (<[roleOf toLower rec := patternsOf rec]> m).
Proof.
  intros Hpre [Hin Hval]. rewrite envToMatrix_step_eq by done.
  rewrite TrimPrefix_envName by done.
  by rewrite (envName_absent _ Hval).
Qed.

Lemma governs_filter_snoc (role : string) (envs : list string) (rec : string) :
  List.filter (governs toLower role) (envs ++ [rec])
  = List.filter (governs toLower role) envs
      ++ (if governs toLower role rec then [rec] else []).
Proof. by rewrite List.filter_app. Qed.

(** The matrix of an environment of plain records, key by key: the
    patterns of the last variable that governs the role. *)
Lemma getRBACConfig_plain (envs : list string) :
  (∀ rec, rec ∈ envs → strings.HasPrefix rec rbacPrefix = true → plainRecord rec) →
  ∃ matr, getRBACConfig toLower envs = Some matr
    ∧ ∀ role, matr !! role
        = patternsOf <$> last (List.filter (governs toLower role) envs).
Proof.
  unfold getRBACConfig, envToMatrix. fold rbacPrefix.
  induction envs as [|rec envs IH] using rev_ind; intros Hplain.
  - exists ∅. split; [done|]. intros role. by rewrite lookup_empty.
  - destruct IH as (m & Hm & Hlook).
    { intros r Hr. apply Hplain. apply elem_of_app. by left. }
    rewrite filterPrefixed_app. simpl.
    destruct (strings.HasPrefix rec rbacPrefix) eqn:Hpre.
    + rewrite envToMatrix_loop_snoc, Hm. simpl.
      rewrite envToMatrix_step_plain; [|done|].
      2:{ apply Hplain; [|done]. apply elem_of_app. right. by left. }
      eexists. split; [done|]. intros role.
      rewrite governs_filter_snoc. unfold governs at 2. rewrite Hpre. simpl.
      rewrite lookup_insert. case_decide as Hk.
      * subst role. rewrite String.eqb_refl. by rewrite last_snoc.
      * apply String.eqb_neq in Hk. rewrite Hk, app_nil_r. apply Hlook.
    + rewrite app_nil_r. exists m. split; [done|]. intros role.
      rewrite governs_filter_snoc. unfold governs at 2. rewrite Hpre. simpl.
      rewrite app_nil_r. apply Hlook.
Qed.

End MatrixFacts.

Lemma Split_sep_app (a b : string) (sep : ascii) :
  strings.Split (a +:+ String sep b) sep
  = strings.Split a sep ++ strings.Split b sep.
Proof.
  induction a as [|c a IH]; simpl.
  - by rewrite Ascii.eqb_refl.
  - destruct (Ascii.eqb c sep) eqn:Hc.
    + simpl. by rewrite IH.
    + rewrite IH. destruct (strings.Split a sep) as [|seg segs] eqn:E.
      * by apply Split_nonempty in E.
      * done.
Qed.

(** Splitting a concatenation: the segments of [a] but the last, then the
    last segment of [a] joined to the first of [b], then the other segments
    of [b]. *)
Lemma Split_app (a b : string) (sep : ascii) :
  ∃ kept cut hd tl,
    strings.Split a sep = kept ++ [cut]
    ∧ strings.Split b sep = hd :: tl
    ∧ strings.Split (a +:+ b) sep = kept ++ (cut +:+ hd) :: tl.
Proof.
  induction a as [|c a (kept & cut & hd & tl & Ha & Hb & Hab)].
  - destruct (strings.Split b sep) as [|hd tl] eqn:E.
    + by apply Split_nonempty in E.
    + by exists [], "", hd, tl.
  - simpl. rewrite Ha, Hab. destruct (Ascii.eqb c sep).
    + exists ("" :: kept), cut, hd, tl. done.
    + destruct kept as [|k ks]; simpl.
      * exists [], (String c cut), hd, tl. done.
      * exists (String c k :: ks), cut, hd, tl. done.
Qed.

(** C6 (as amended).  For an environment whose [RANGO_RBAC_] records have
    the form [NAME=VALUE] with no ['='] in the value, [getRBACConfig] returns
    a matrix in which a role has an entry exactly when some prefixed variable
    has that role as its lowercased name after the prefix, the entry being
    the comma-split value of the last such variable in the environment;
    records without the prefix contribute nothing. *)
Theorem access_matrix_last_variable_wins (toLower : string → string)
    (envs : list string) :
  (∀ rec, rec ∈ envs → strings.HasPrefix rec rbacPrefix = true → plainRecord rec) →
  ∃ matr, getRBACConfig toLower envs = Some matr
    ∧ (∀ role, matr !! role
         = patternsOf <$> last (List.filter (governs toLower role) envs))
    ∧ (∀ role, is_Some (matr !! role)
         ↔ ∃ rec, rec ∈ envs ∧ strings.HasPrefix rec rbacPrefix = true
                  ∧ roleOf toLower rec = role)
    ∧ getRBACConfig toLower (filterPrefixed rbacPrefix envs) = Some matr.
Proof.
  intros Hplain.
  destruct (getRBACConfig_plain toLower envs Hplain) as (m & Hm & Hlook).
  exists m. split; [done|]. split; [done|]. split.
  - intros role. rewrite Hlook, fmap_is_Some. split.
    + intros [rec Hrec]. apply last_Some_elem_of in Hrec.
      apply list_elem_of_In, List.filter_In in Hrec as [Hin Hg].
      unfold governs in Hg. apply andb_true_iff in Hg as [Hpre Hrole].
      apply String.eqb_eq in Hrole. exists rec.
      rewrite list_elem_of_In. auto.
    + intros (rec & Hin & Hpre & Hrole).
      assert (In rec (List.filter (governs toLower role) envs)) as Hf.
      { apply List.filter_In. split; [by apply list_elem_of_In|].
        unfold governs. rewrite Hpre. simpl. by apply String.eqb_eq. }
      destruct (List.filter (governs toLower role) envs) as [|x l] using rev_ind;
        [done|]. rewrite last_snoc. eauto.
  - rewrite <- Hm. unfold getRBACConfig. fold rbacPrefix.
    by rewrite filterPrefixed_idem.
Qed.

Lemma access_matrix_last_variable_wins_witness :
  ∃ matr,
    getRBACConfig strings.ToLowerASCII
      ["PATH=/bin"; "RANGO_RBAC_TRADER=trades,order"; "RANGO_RBAC_trader=candles"]
    = Some matr
    ∧ matr !! "trader" = Some ["candles"].
Proof.
  destruct (access_matrix_last_variable_wins strings.ToLowerASCII
    ["PATH=/bin"; "RANGO_RBAC_TRADER=trades,order"; "RANGO_RBAC_trader=candles"])
    as (m & Hm & Hlook & _).
  - intros rec Hrec _.
    repeat (apply elem_of_cons in Hrec as [->|Hrec]; [by split|]).
    inversion Hrec.
  - exists m. split; [exact Hm|]. rewrite Hlook. reflexivity.
Defined.

(** C6, as stated, fails: two variables whose names differ in letter case
    only are two variables with the prefix, and share one entry. *)
Lemma one_entry_per_variable_fails :
  getRBACConfig strings.ToLowerASCII
    ["RANGO_RBAC_TRADER=trades,order"; "RANGO_RBAC_trader=candles"]
  = Some {["trader" := ["candles"]]}
  ∧ ¬ oneEntryPerVariable strings.ToLowerASCII
        ["RANGO_RBAC_TRADER=trades,order"; "RANGO_RBAC_trader=candles"].
Proof.
  split; [vm_compute; reflexivity|].
  intros (m & Hm & Hsize & Hent).
  assert (m !! "trader" = Some ["trades"; "order"]) as Hfirst.
  { apply (Hent "RANGO_RBAC_TRADER=trades,order"); [by left | reflexivity]. }
  assert (m !! "trader" = Some ["candles"]) as Hlast.
  { apply (Hent "RANGO_RBAC_trader=candles"); [by right; left | reflexivity]. }
  rewrite Hfirst in Hlast. discriminate.
Qed.

(** C10.  [envToMatrix] splits a record at every ['='] and reads segments 0
    and 1 only.  For a record [NAME=V1=V2] the entry is the comma-split of
    [V1], whatever [V2] is: of the patterns of the whole value [V1=V2], the
    ones before the pattern holding the ['='] are kept, that pattern is cut
    at the ['='], and the later ones are absent.  No panic, no error. *)
Theorem envToMatrix_reads_up_to_second_eq (toLower : string → string)
    (trimPrefix : string) (env : list string) (matr : gmap string (list string))
    (name v1 v2 : string) :
  strings.ContainsByte name "=" = false →
  strings.ContainsByte v1 "=" = false →
  envToMatrix toLower env trimPrefix = Some matr →
  let rec := name +:+ String "=" (v1 +:+ String "=" v2) in
  strings.Split rec "=" = name :: v1 :: strings.Split v2 "="
  ∧ envValue rec = v1 +:+ String "=" v2
  ∧ envToMatrix toLower (env ++ [rec]) trimPrefix
    = Some (<[toLower (strings.TrimPrefix name trimPrefix)
              := strings.Split v1 ","]> matr)
  ∧ ∃ kept cut rest later,
      strings.Split v1 "," = kept ++ [cut]
      ∧ strings.Split (envValue rec) ","
        = kept ++ (cut +:+ String "=" rest) :: later.
Proof.
  intros Hname Hv1 Hm rec.
  assert (envValue rec = v1 +:+ String "=" v2) as Hval
    by (by apply envValue_app).
  split; [|split; [done|split]].
  - unfold rec. rewrite !Split_sep_app.
    by rewrite (Split_absent name), (Split_absent v1).
  - unfold envToMatrix in *. rewrite envToMatrix_loop_snoc, Hm. simpl.
    rewrite envToMatrix_step_eq.
    + rewrite Hval. unfold rec. by rewrite !envName_app.
    + unfold rec. rewrite ContainsByte_app. simpl. apply orb_true_r.
  - rewrite Hval.
    destruct (Split_app v1 (String "=" v2) ",")
      as (kept & cut & hd & tl & Ha & Hb & Hab).
    simpl in Hb.
    destruct (strings.Split v2 ",") as [|seg segs] eqn:E;
      [by apply Split_nonempty in E|].
    injection Hb as <- <-.
    exists kept, cut, seg, segs. done.
Qed.

Lemma envToMatrix_reads_up_to_second_eq_witness :
  envToMatrix strings.ToLowerASCII ["RANGO_RBAC_ADMIN=a,b=c,d"] "RANGO_RBAC_"
  = Some {["admin" := ["a"; "b"]]}.
Proof.
  pose proof (envToMatrix_reads_up_to_second_eq strings.ToLowerASCII
    "RANGO_RBAC_" [] ∅ "RANGO_RBAC_ADMIN" "a,b" "c,d"
    eq_refl eq_refl eq_refl) as (_ & _ & H & _).
  exact H.
Defined.

(** ** The admission front-end *)

Lemma Get_Set_eq (h : gmap string (list string)) (key value : string) :
  http.Get (http.Set_ h key value) key = value.
Proof. unfold http.Get, http.Set_. by rewrite lookup_insert_eq. Qed.

Lemma Get_Del_eq (h : gmap string (list string)) (key : string) :
  http.Get (http.Del h key) key = "".
Proof. unfold http.Get, http.Del. by rewrite lookup_delete_eq. Qed.

Lemma Get_Set_ne (h : gmap string (list string)) (k1 k2 value : string) :
  http.CanonicalMIMEHeaderKey k1 ≠ http.CanonicalMIMEHeaderKey k2 →
  http.Get (http.Set_ h k1 value) k2 = http.Get h k2.
Proof. intros Hne. unfold http.Get, http.Set_. by rewrite lookup_insert_ne. Qed.

Lemma Get_Del_ne (h : gmap string (list string)) (k1 k2 : string) :
  http.CanonicalMIMEHeaderKey k1 ≠ http.CanonicalMIMEHeaderKey k2 →
  http.Get (http.Del h k1) k2 = http.Get h k2.
Proof. intros Hne. unfold http.Get, http.Del. by rewrite lookup_delete_ne. Qed.

Lemma JwtRole_ne_JwtUID :
  http.CanonicalMIMEHeaderKey "JwtRole" ≠ http.CanonicalMIMEHeaderKey "JwtUID".
Proof. discriminate. Qed.

Lemma identified_Get (r : http.Request) (auth : Auth) :
  http.Get (http.Header (identified r auth)) "JwtUID" = UID auth
  ∧ http.Get (http.Header (identified r auth)) "JwtRole" = Role auth.
Proof.
  unfold identified. simpl. split.
  - rewrite Get_Set_ne by apply JwtRole_ne_JwtUID. apply Get_Set_eq.
  - apply Get_Set_eq.
Qed.

Lemma anonymous_Get (r : http.Request) :
  http.Get (http.Header (anonymous r)) "JwtUID" = ""
  ∧ http.Get (http.Header (anonymous r)) "JwtRole" = "".
Proof.
  unfold anonymous. simpl. split.
  - rewrite Get_Del_ne by apply JwtRole_ne_JwtUID. apply Get_Del_eq.
  - apply Get_Del_eq.
Qed.

Section Admission.

Context `{A : AuthPkg}.

Lemma authHandler_valid (h : httpHanlder) (key : option rsa_PublicKey)
    (mustAuth : bool) (r : http.Request) (auth : Auth) :
  ParseAndValidate (token r) key = (auth, None) →
  authHandler h key mustAuth r = h (identified r auth).
Proof. intros Hv. unfold authHandler. rewrite Hv. done. Qed.

Lemma authHandler_invalid_must (h : httpHanlder) (key : option rsa_PublicKey)
    (r : http.Request) (auth : Auth) (e : error) :
  ParseAndValidate (token r) key = (auth, Some e) →
  authHandler h key true r = [EvWriteHeader http.StatusUnauthorized].
Proof. intros Hv. unfold authHandler. rewrite Hv. done. Qed.

Lemma authHandler_invalid_optional (h : httpHanlder)
    (key : option rsa_PublicKey) (r : http.Request) (auth : Auth) (e : error) :
  ParseAndValidate (token r) key = (auth, Some e) →
  authHandler h key false r = h (anonymous r).
Proof. intros Hv. unfold authHandler. rewrite Hv. done. Qed.

(** Where the mux of [main] sends a path. *)
Lemma muxMatch_handlers (pub : option rsa_PublicKey) (path : string) :
  muxMatch (handlers pub) path
  = if String.eqb "/private" path then Some (authHandler wsHandler pub true)
    else if strings.HasPrefix path "/"
         then Some (authHandler wsHandler pub false)
         else None.
Proof.
  unfold muxMatch, handlers. cbn [muxExact muxLongest].
  destruct (String.eqb "/private" path); [done|].
  destruct (String.eqb "/public" path) eqn:Hpub.
  { apply String.eqb_eq in Hpub as <-. done. }
  destruct (String.eqb "/" path) eqn:Hroot.
  { apply String.eqb_eq in Hroot as <-. done. }
  change (endsInSlash "/private") with false.
  change (endsInSlash "/public") with false.
  change (endsInSlash "/") with true.
  cbn [andb]. destruct (strings.HasPrefix path "/"); done.
Qed.

Lemma HasPrefix_slash (x : string) : strings.HasPrefix (String "/" x) "/" = true.
Proof. unfold strings.HasPrefix. simpl. by destruct x. Qed.

(** A clean path starts with a slash. *)
Lemma cleanPath_rooted (p : string) :
  strings.HasPrefix (cleanPath p) "/" = true.
Proof.
  destruct p as [|c p]; [done|]. unfold cleanPath.
  set (p' := if Ascii.eqb c "/" then String c p else String "/" (String c p)).
  assert (∃ q, p' = String "/" q) as [q Hq].
  { unfold p'. destruct (Ascii.eqb c "/") eqn:E; [|by eauto].
    apply Ascii.eqb_eq in E as ->. by eauto. }
  rewrite Hq. unfold path_Clean. rewrite Ascii.eqb_refl.
  destruct (endsInSlash _ && negb _); [|apply HasPrefix_slash].
  destruct (_ && _); apply HasPrefix_slash.
Qed.

Lemma clean_path_rooted (p : string) :
  cleanPath p = p → strings.HasPrefix p "/" = true ∧ String.eqb p "*" = false.
Proof.
  intros Hp. pose proof (cleanPath_rooted p) as Hr. rewrite Hp in Hr.
  split; [done|]. apply String.eqb_neq. by intros ->.
Qed.

Lemma slash_appended_not_private (p : string) : p +:+ "/" ≠ "/private".
Proof.
  intros H.
  repeat (destruct p as [|? p]; simpl in H; [discriminate H | injection H as _ H]).
  destruct p; discriminate H.
Qed.

Lemma slash_appended_not_public (p : string) : p +:+ "/" ≠ "/public".
Proof.
  intros H.
  repeat (destruct p as [|? p]; simpl in H; [discriminate H | injection H as _ H]).
  destruct p; discriminate H.
Qed.

Lemma slash_appended_root (p : string) : p +:+ "/" = "/" → p = "".
Proof. destruct p as [|? [|? p]]; [done | discriminate..]. Qed.

(** The patterns of [main] never make the mux redirect to [path/]. *)
Lemma shouldRedirect_handlers (pub : option rsa_PublicKey) (path : string) :
  shouldRedirect (handlers pub) path = false.
Proof.
  unfold shouldRedirect. case_bool_decide; [done|].
  destruct (String.eqb path "") eqn:Hempty; [done|].
  apply String.eqb_neq in Hempty.
  case_bool_decide as Hslash; [|done]. exfalso.
  unfold handlers in Hslash. cbn [muxExact] in Hslash.
  destruct (String.eqb "/private" (path +:+ "/")) eqn:E1.
  { apply String.eqb_eq in E1. by eapply slash_appended_not_private. }
  destruct (String.eqb "/public" (path +:+ "/")) eqn:E2.
  { apply String.eqb_eq in E2. by eapply slash_appended_not_public. }
  destruct (String.eqb "/" (path +:+ "/")) eqn:E3.
  { apply String.eqb_eq in E3. symmetry in E3.
    by apply slash_appended_root in E3. }
  by destruct Hslash.
Qed.

(** What the mux of [main] does with a request. *)
Lemma ServeHTTP_handlers (pub : option rsa_PublicKey) (r : http.Request) :
  ServeHTTP (handlers pub) r
  = if String.eqb (http.URLPath r) "*" then [EvWriteHeader 400]
    else if negb (String.eqb (http.Method r) "CONNECT")
            && negb (String.eqb (cleanPath (http.URLPath r)) (http.URLPath r))
    then [EvWriteHeader 301]
    else if String.eqb "/private" (http.URLPath r)
    then authHandler wsHandler pub true r
    else if strings.HasPrefix (http.URLPath r) "/"
    then authHandler wsHandler pub false r
    else [EvWriteHeader 404].
Proof.
  unfold ServeHTTP, ServeMux_Handler.
  destruct (String.eqb (http.URLPath r) "*"); [done|].
  rewrite !shouldRedirect_handlers. unfold muxHandler.
  rewrite muxMatch_handlers.
  destruct (String.eqb (http.Method r) "CONNECT"); cbn [negb andb].
  - destruct (String.eqb "/private" (http.URLPath r)); [reflexivity|].
    destruct (strings.HasPrefix (http.URLPath r) "/"); reflexivity.
  - destruct (String.eqb (cleanPath (http.URLPath r)) (http.URLPath r));
      cbn [negb]; [|reflexivity].
    destruct (String.eqb "/private" (http.URLPath r)); [reflexivity|].
    destruct (strings.HasPrefix (http.URLPath r) "/"); reflexivity.
Qed.

(** On a clean path the mux goes straight to the registered handler. *)
Lemma ServeHTTP_handlers_clean (pub : option rsa_PublicKey) (r : http.Request) :
  cleanPath (http.URLPath r) = http.URLPath r →
  ServeHTTP (handlers pub) r
  = authHandler wsHandler pub (String.eqb "/private" (http.URLPath r)) r.
Proof.
  intros Hclean. destruct (clean_path_rooted _ Hclean) as [Hslash Hstar].
  rewrite ServeHTTP_handlers, Hstar, Hclean, String.eqb_refl, Hslash.
  rewrite andb_false_r.
  by destruct (String.eqb "/private" (http.URLPath r)).
Qed.

Lemma token_same_header (r1 r2 : http.Request) :
  http.Get (http.Header r1) "Authorization"
  = http.Get (http.Header r2) "Authorization" →
  token r1 = token r2.
Proof. unfold token. by intros ->. Qed.

End Admission.

(** C1.  A request to [/private] whose token does not validate is answered
    401 and nothing else happens: the trace holds no [EvNewClient], and the
    answer is the same whatever handler is wrapped, so the wrapped handler
    does not run. *)
Theorem private_rejects_unvalidated `{A : AuthPkg}
    (pub : option rsa_PublicKey) (r : http.Request) (auth : Auth) (e : error) :
  http.URLPath r = "/private" →
  ParseAndValidate (token r) pub = (auth, Some e) →
  ServeHTTP (handlers pub) r = [EvWriteHeader 401]
  ∧ (∀ r', EvNewClient r' ∉ ServeHTTP (handlers pub) r)
  ∧ (∀ h : httpHanlder, authHandler h pub true r = [EvWriteHeader 401]).
Proof.
  intros Hpath Hv.
  assert (ServeHTTP (handlers pub) r = [EvWriteHeader 401]) as Hserve.
  { rewrite ServeHTTP_handlers_clean by (by rewrite Hpath).
    rewrite Hpath. simpl.
    by rewrite (authHandler_invalid_must _ _ _ auth e). }
  split; [done|]. split.
  - intros r'. rewrite Hserve. intros Hin.
    apply list_elem_of_singleton in Hin. discriminate.
  - intros h. by rewrite (authHandler_invalid_must _ _ _ auth e).
Qed.

Lemma private_rejects_unvalidated_witness :
  ServeHTTP (handlers (A := demoAuth) (Some demoKey))
    (demoRequest "/private" [("Authorization", "Bearer forged")])
  = [EvWriteHeader 401].
Proof.
  apply (private_rejects_unvalidated (A := demoAuth) (Some demoKey)
           (demoRequest "/private" [("Authorization", "Bearer forged")])
           {| UID := ""; Role := "" |} "invalid token");
    reflexivity.
Defined.

(** C4.  A request the mux hands to the handler of [/public] or of [/],
    that is a request whose path is clean (the mux redirects the others
    without calling a handler) and is not [/private], and whose token does
    not validate, reaches the WebSocket handler with [JwtUID] and [JwtRole]
    deleted, and no status is written.  A request without an
    [Authorization] header, or with one that does not start with [Bearer ],
    is validated as the empty token. *)
Theorem optional_endpoint_admits_anonymous `{A : AuthPkg}
    (pub : option rsa_PublicKey) (r : http.Request) (auth : Auth) (e : error) :
  http.URLPath r ≠ "/private" →
  cleanPath (http.URLPath r) = http.URLPath r →
  ParseAndValidate (token r) pub = (auth, Some e) →
  ServeHTTP (handlers pub) r = [EvNewClient (anonymous r)]
  ∧ (∀ h : httpHanlder, authHandler h pub false r = h (anonymous r))
  ∧ http.Header (anonymous r) !! http.CanonicalMIMEHeaderKey "JwtUID" = None
  ∧ http.Header (anonymous r) !! http.CanonicalMIMEHeaderKey "JwtRole" = None
  ∧ http.Get (http.Header (anonymous r)) "JwtUID" = ""
  ∧ http.Get (http.Header (anonymous r)) "JwtRole" = ""
  ∧ (http.Header r !! "Authorization" = None
     ∨ strings.HasPrefix (http.Get (http.Header r) "Authorization") prefix = false
     → token r = "").
Proof.
  intros Hpath Hclean Hv.
  split; [|split; [|split; [|split; [|split; [|split]]]]].
  - rewrite ServeHTTP_handlers_clean by done.
    destruct (String.eqb "/private" (http.URLPath r)) eqn:Heq.
    { apply String.eqb_eq in Heq. congruence. }
    by rewrite (authHandler_invalid_optional _ _ _ auth e).
  - intros h. by apply (authHandler_invalid_optional _ _ _ auth e).
  - unfold anonymous, http.Del. simpl.
    rewrite lookup_delete_ne by discriminate. apply lookup_delete_eq.
  - unfold anonymous, http.Del. simpl. apply lookup_delete_eq.
  - apply anonymous_Get.
  - apply anonymous_Get.
  - unfold token, http.Get.
    change (http.CanonicalMIMEHeaderKey "Authorization") with "Authorization".
    intros [-> | ->]; done.
Qed.

Lemma optional_endpoint_admits_anonymous_witness :
  ServeHTTP (handlers (A := demoAuth) (Some demoKey))
    (demoRequest "/public" [("Authorization", "Basic abc"); ("Jwtuid", "root")])
  = [EvNewClient (demoRequest "/public" [("Authorization", "Basic abc")])].
Proof.
  pose proof (optional_endpoint_admits_anonymous (A := demoAuth) (Some demoKey)
    (demoRequest "/public" [("Authorization", "Basic abc"); ("Jwtuid", "root")])
    {| UID := ""; Role := "" |} "invalid token") as H.
  destruct H as (H & _); [discriminate | reflexivity | reflexivity |].
  rewrite H. vm_compute. reflexivity.
Defined.

(** C8.  What the wrapped handler finds under [JwtUID] and [JwtRole] depends
    on the [Authorization] header alone.  Two requests with the same
    [Authorization] header are both answered 401, or are both handed on,
    with the same entries under the two keys: the validated identity, or
    nothing when validation failed.  Whatever the client put under these
    keys is overwritten or deleted. *)
Theorem jwt_headers_from_validation_only `{A : AuthPkg}
    (pub : option rsa_PublicKey) (mustAuth : bool) (r1 r2 : http.Request) :
  http.Get (http.Header r1) "Authorization"
  = http.Get (http.Header r2) "Authorization" →
  ((∀ h : httpHanlder, authHandler h pub mustAuth r1 = [EvWriteHeader 401])
   ∧ (∀ h : httpHanlder, authHandler h pub mustAuth r2 = [EvWriteHeader 401]))
  ∨ ∃ r1' r2' uid role,
      (∀ h : httpHanlder, authHandler h pub mustAuth r1 = h r1')
      ∧ (∀ h : httpHanlder, authHandler h pub mustAuth r2 = h r2')
      ∧ (uid, role)
        = (let '(auth, err) := ParseAndValidate (token r1) pub in
           if bool_decide (err = None) then (UID auth, Role auth) else ("", ""))
      ∧ http.Get (http.Header r1') "JwtUID" = uid
      ∧ http.Get (http.Header r2') "JwtUID" = uid
      ∧ http.Get (http.Header r1') "JwtRole" = role
      ∧ http.Get (http.Header r2') "JwtRole" = role
      ∧ http.Header r1' !! http.CanonicalMIMEHeaderKey "JwtUID"
        = http.Header r2' !! http.CanonicalMIMEHeaderKey "JwtUID"
      ∧ http.Header r1' !! http.CanonicalMIMEHeaderKey "JwtRole"
        = http.Header r2' !! http.CanonicalMIMEHeaderKey "JwtRole".
Proof.
  intros Hsame. pose proof (token_same_header r1 r2 Hsame) as Htok.
  destruct (ParseAndValidate (token r1) pub) as [auth [e|]] eqn:Hv.
  - destruct mustAuth.
    + left. split; intros h.
      * by apply (authHandler_invalid_must _ _ _ auth e).
      * apply (authHandler_invalid_must _ _ _ auth e). by rewrite <- Htok.
    + right. exists (anonymous r1), (anonymous r2), "", "".
      split; [intros h; by apply (authHandler_invalid_optional _ _ _ auth e)|].
      split; [intros h; apply (authHandler_invalid_optional _ _ _ auth e);
              by rewrite <- Htok|].
      split; [done|].
      rewrite !(proj1 (anonymous_Get _)), !(proj2 (anonymous_Get _)).
      repeat split.
      * unfold anonymous, http.Del. simpl.
        rewrite !(lookup_delete_ne _ (http.CanonicalMIMEHeaderKey "JwtRole"))
          by discriminate.
        by rewrite !lookup_delete_eq.
      * unfold anonymous, http.Del. simpl. by rewrite !lookup_delete_eq.
  - right. exists (identified r1 auth), (identified r2 auth), (UID auth), (Role auth).
    split; [intros h; by apply authHandler_valid|].
    split; [intros h; apply authHandler_valid; by rewrite <- Htok|].
    split; [done|].
    rewrite !(proj1 (identified_Get _ _)), !(proj2 (identified_Get _ _)).
    repeat split.
    + unfold identified, http.Set_. simpl.
      rewrite !(lookup_insert_ne _ (http.CanonicalMIMEHeaderKey "JwtRole"))
        by discriminate.
      by rewrite !lookup_insert_eq.
    + unfold identified, http.Set_. simpl. by rewrite !lookup_insert_eq.
Qed.

Lemma jwt_headers_from_validation_only_witness :
  ∃ r1' r2',
    authHandler (A := demoAuth) wsHandler (Some demoKey) false
      (demoRequest "/public" [("Authorization", "Bearer good"); ("Jwtuid", "root")])
    = [EvNewClient r1']
    ∧ authHandler (A := demoAuth) wsHandler (Some demoKey) false
        (demoRequest "/public" [("Authorization", "Bearer good"); ("Jwtrole", "admin")])
      = [EvNewClient r2']
    ∧ http.Get (http.Header r1') "JwtUID" = "alice"
    ∧ http.Get (http.Header r2') "JwtUID" = "alice"
    ∧ http.Get (http.Header r1') "JwtRole" = "trader"
    ∧ http.Get (http.Header r2') "JwtRole" = "trader".
Proof.
  destruct (jwt_headers_from_validation_only (A := demoAuth) (Some demoKey) false
    (demoRequest "/public" [("Authorization", "Bearer good"); ("Jwtuid", "root")])
    (demoRequest "/public" [("Authorization", "Bearer good"); ("Jwtrole", "admin")])
    eq_refl)
    as [[H1 _] | (r1' & r2' & uid & role & H1 & H2 & Hid & G1 & G2 & G3 & G4 & _)].
  - specialize (H1 wsHandler). vm_compute in H1. discriminate.
  - exists r1', r2'. vm_compute in Hid. injection Hid as -> ->.
    rewrite (H1 wsHandler), (H2 wsHandler).
    repeat split; assumption.
Defined.

(** ** The public key *)

Lemma getPublicKey_keyOf `{A : AuthPkg} `{P : Platform} (flags : Flags) :
  getPublicKey flags = keyOf (loadedKeyStore flags).
Proof.
  unfold getPublicKey, loadedKeyStore, keyOf.
  destruct (negb (Getenv "JWT_PUBLIC_KEY" =? "")%string).
  - by destruct (LoadPublicKeyFromString _ _) as [ks err].
  - by destruct (LoadPublicKeyFromFile _ _) as [ks err].
Qed.

(** C7.  With a non-empty [JWT_PUBLIC_KEY] the key is what the inline
    loader leaves in the KeyStore, and the flags (the key-file path among
    them) play no part; with an empty one it is what the file loader leaves
    for the path of the [pubKey] flag, [config/rsa-key.pub] by default. *)
Theorem inline_key_preferred_over_file `{A : AuthPkg} `{P : Platform}
    (flags : Flags) :
  (Getenv "JWT_PUBLIC_KEY" ≠ "" →
     getPublicKey flags
     = keyOf (fst (LoadPublicKeyFromString (Getenv "JWT_PUBLIC_KEY")
                     {| PublicKey := None |}))
     ∧ ∀ flags', getPublicKey flags' = getPublicKey flags)
  ∧ (Getenv "JWT_PUBLIC_KEY" = "" →
     getPublicKey flags
     = keyOf (fst (LoadPublicKeyFromFile (pubKey flags) {| PublicKey := None |})))
  ∧ pubKey defaultFlags = "config/rsa-key.pub".
Proof.
  split; [|split; [|done]].
  - intros Hne. apply String.eqb_neq in Hne.
    assert (∀ f, getPublicKey f
      = keyOf (fst (LoadPublicKeyFromString (Getenv "JWT_PUBLIC_KEY")
                      {| PublicKey := None |}))) as Hall.
    { intros f. rewrite getPublicKey_keyOf. unfold loadedKeyStore.
      by rewrite Hne. }
    split; [apply Hall|]. intros flags'. by rewrite !Hall.
  - intros Heq. apply String.eqb_eq in Heq.
    rewrite getPublicKey_keyOf. unfold loadedKeyStore. by rewrite Heq.
Qed.

Lemma inline_key_preferred_over_file_witness :
  getPublicKey (A := demoAuth) (P := demoPlatform demoVars None None) noKeyFlags
  = (Some demoKey, None)
  ∧ getPublicKey (A := demoAuth) (P := demoPlatform noKeyVars None None)
      defaultFlags
    = (Some {| N := 187; E := 7 |}, None).
Proof.
  split.
  - destruct (inline_key_preferred_over_file (A := demoAuth)
      (P := demoPlatform demoVars None None) noKeyFlags) as (H & _ & _).
    destruct H as [H _]; [discriminate|]. rewrite H. reflexivity.
  - destruct (inline_key_preferred_over_file (A := demoAuth)
      (P := demoPlatform noKeyVars None None) defaultFlags) as (_ & H & _).
    rewrite H; reflexivity.
Defined.

(** C9.  [getPublicKey] returns an error exactly when the KeyStore holds no
    key after loading, and that error is always [failed]: the error a loader
    returns has no effect on the result, which is a function of the loaded
    KeyStore ([err] is still [nil] at the first check). *)
Theorem getPublicKey_error_iff_no_key `{A : AuthPkg} `{P : Platform}
    (flags : Flags) :
  (snd (getPublicKey flags) ≠ None ↔ PublicKey (loadedKeyStore flags) = None)
  ∧ getPublicKey flags = keyOf (loadedKeyStore flags)
  ∧ (∀ e, snd (getPublicKey flags) = Some e →
       e = "failed" ∧ fst (getPublicKey flags) = None)
  ∧ (∀ pub, PublicKey (loadedKeyStore flags) = Some pub →
       getPublicKey flags = (Some pub, None)).
Proof.
  rewrite getPublicKey_keyOf. unfold keyOf.
  destruct (PublicKey (loadedKeyStore flags)) as [pub|]; simpl.
  - split; [split; [intros []; done | discriminate]|].
    split; [done|]. split; [discriminate|]. by intros ? [= ->].
  - split; [done|]. split; [done|]. split; [|discriminate].
    by intros e [= <-].
Qed.

Example getPublicKey_drops_loader_error :
  snd (LoadPublicKeyFromString (AuthPkg := noisyAuth) "PEM" {| PublicKey := None |})
  = Some "trailing data"
  ∧ getPublicKey (A := noisyAuth) (P := demoPlatform demoVars None None)
      defaultFlags
    = (Some demoKey, None).
Proof. split; reflexivity. Qed.

Lemma getPublicKey_error_iff_no_key_witness :
  getPublicKey (A := demoAuth) (P := demoPlatform noKeyVars None None) noKeyFlags
  = (None, Some "failed").
Proof.
  destruct (getPublicKey_error_iff_no_key (A := demoAuth)
    (P := demoPlatform noKeyVars None None) noKeyFlags) as (_ & H & _).
  rewrite H. reflexivity.
Defined.

(** ** [main] *)

Section Main.

Context `{A : AuthPkg} `{P : Platform}.

Lemma main_key_failure (flags : Flags) (lvl : zerolog.Level)
    (rbac : gmap string (list string)) (pub : option rsa_PublicKey) (e : error) :
  setupLogger = Some lvl →
  getRBACConfig ToLower Environ = Some rbac →
  getPublicKey flags = (pub, Some e) →
  main flags
  = ([ EvLog zerolog.ErrorLevel "Loading public key failed: %s" [ArgStr e];
       EvSleep 2000 ], Returned).
Proof. intros Hl Hr Hk. unfold main. by rewrite Hl, Hr, Hk. Qed.

Lemma main_consumer_failure (flags : Flags) (lvl : zerolog.Level)
    (rbac : gmap string (list string)) (pub : option rsa_PublicKey) (e : error) :
  setupLogger = Some lvl →
  getRBACConfig ToLower Environ = Some rbac →
  getPublicKey flags = (pub, None) →
  kgo_NewClient (consumerOpts flags) = Some e →
  main flags
  = ([ EvKgoNewClient (consumerOpts flags);
       EvLog zerolog.ErrorLevel "Failed to create consumer: %s" [ArgStr e] ],
     Returned).
Proof. intros Hl Hr Hk Hc. unfold main. by rewrite Hl, Hr, Hk, Hc. Qed.

Lemma main_listen_failure (flags : Flags) (lvl : zerolog.Level)
    (rbac : gmap string (list string)) (pub : option rsa_PublicKey) (e : error) :
  setupLogger = Some lvl →
  getRBACConfig ToLower Environ = Some rbac →
  getPublicKey flags = (pub, None) →
  kgo_NewClient (consumerOpts flags) = None →
  ListenAndServe (getServerAddress flags) = Some e →
  snd (main flags) = Fatal.
Proof. intros Hl Hr Hk Hc Hs. unfold main. by rewrite Hl, Hr, Hk, Hc, Hs. Qed.

(** Every exit of [main] with status 0 is one of the two early returns. *)
Lemma main_returns_only_on_failure (flags : Flags) :
  exitCode (snd (main flags)) = Some 0%Z →
  snd (getPublicKey flags) ≠ None
  ∨ kgo_NewClient (consumerOpts flags) ≠ None.
Proof.
  unfold main. destruct setupLogger; [|discriminate].
  destruct (getRBACConfig ToLower Environ); [|discriminate].
  destruct (getPublicKey flags) as [pub [e|]]; [by left|].
  destruct (kgo_NewClient (consumerOpts flags)); [by right|].
  destruct (ListenAndServe (getServerAddress flags)); discriminate.
Qed.

(** Past the key, [main] calls [kgo.NewClient] with [consumerOpts]. *)
Lemma main_creates_client (flags : Flags) :
  setupLogger ≠ None → getRBACConfig ToLower Environ ≠ None →
  snd (getPublicKey flags) = None →
  EvKgoNewClient (consumerOpts flags) ∈ fst (main flags).
Proof.
  unfold main. intros Hl Hr Hk.
  destruct setupLogger; [|done].
  destruct (getRBACConfig ToLower Environ); [|done].
  destruct (getPublicKey flags) as [pub [e|]]; [done|].
  destruct (kgo_NewClient (consumerOpts flags)); [by left|].
  destruct (ListenAndServe (getServerAddress flags)); by left.
Qed.

Lemma main_client_opts (flags : Flags) (opts : list kgo.Opt) :
  EvKgoNewClient opts ∈ fst (main flags) → opts = consumerOpts flags.
Proof.
  unfold main. destruct setupLogger; [|by intros ?%elem_of_nil].
  destruct (getRBACConfig ToLower Environ); [|by intros ?%elem_of_nil].
  destruct (getPublicKey flags) as [pub [e|]]; simpl.
  { rewrite !elem_of_cons, elem_of_nil. intros [?|[?|[]]]; discriminate. }
  destruct (kgo_NewClient (consumerOpts flags)); simpl.
  { rewrite !elem_of_cons, elem_of_nil. intros [?|[?|[]]]; congruence. }
  destruct (ListenAndServe (getServerAddress flags)); simpl;
    rewrite !elem_of_cons, elem_of_nil; intros H;
    repeat (destruct H as [H|H]; [congruence|]); done.
Qed.

End Main.

(** C2 (the code departs from it).  Once the logger and the matrix are set
    up, a key that cannot be loaded makes [main] log, sleep two seconds and
    return, and a consumer that cannot be created makes it log and return:
    the process exits with status 0 in both cases.  Only the failure to
    listen ends in [log.Fatal], status 1.  Status 0 is reached in no other
    way than these two returns. *)
Theorem startup_failure_exit_status `{A : AuthPkg} `{P : Platform}
    (flags : Flags) (lvl : zerolog.Level) (rbac : gmap string (list string)) :
  setupLogger = Some lvl →
  getRBACConfig ToLower Environ = Some rbac →
  (∀ e, snd (getPublicKey flags) = Some e →
     snd (main flags) = Returned ∧ exitCode (snd (main flags)) = Some 0%Z)
  ∧ (∀ e, snd (getPublicKey flags) = None →
       kgo_NewClient (consumerOpts flags) = Some e →
       snd (main flags) = Returned ∧ exitCode (snd (main flags)) = Some 0%Z)
  ∧ (∀ e, snd (getPublicKey flags) = None →
       kgo_NewClient (consumerOpts flags) = None →
       ListenAndServe (getServerAddress flags) = Some e →
       snd (main flags) = Fatal ∧ exitCode (snd (main flags)) = Some 1%Z)
  ∧ (exitCode (snd (main flags)) = Some 0%Z →
       snd (getPublicKey flags) ≠ None
       ∨ kgo_NewClient (consumerOpts flags) ≠ None).
Proof.
  intros Hl Hr. split; [|split; [|split]].
  - intros e He. destruct (getPublicKey flags) as [pub err] eqn:Hk.
    simpl in He. subst err.
    by rewrite (main_key_failure flags lvl rbac pub e).
  - intros e He Hc. destruct (getPublicKey flags) as [pub err] eqn:Hk.
    simpl in He. subst err.
    by rewrite (main_consumer_failure flags lvl rbac pub e).
  - intros e He Hc Hs. destruct (getPublicKey flags) as [pub err] eqn:Hk.
    simpl in He. subst err.
    by rewrite (main_listen_failure flags lvl rbac pub e).
  - apply main_returns_only_on_failure.
Qed.

Lemma startup_failure_exit_status_witness :
  main (A := demoAuth) (P := demoPlatform noKeyVars None None) noKeyFlags
  = ([ EvLog zerolog.ErrorLevel "Loading public key failed: %s" [ArgStr "failed"];
       EvSleep 2000 ], Returned)
  ∧ exitCode (snd (main (A := demoAuth)
                     (P := demoPlatform noKeyVars None None) noKeyFlags))
    = Some 0%Z
  ∧ exitCode (snd (main (A := demoAuth)
                     (P := demoPlatform demoVars (Some "no seed brokers") None)
                     defaultFlags))
    = Some 0%Z
  ∧ exitCode (snd (main (A := demoAuth)
                     (P := demoPlatform demoVars None (Some "address in use"))
                     defaultFlags))
    = Some 1%Z.
Proof.
  split; [reflexivity|]. split; [|split].
  - destruct (startup_failure_exit_status (A := demoAuth)
      (P := demoPlatform noKeyVars None None) noKeyFlags
      zerolog.DebugLevel ∅ eq_refl eq_refl) as (H & _).
    apply (H "failed"). reflexivity.
  - destruct (startup_failure_exit_status (A := demoAuth)
      (P := demoPlatform demoVars (Some "no seed brokers") None) defaultFlags
      zerolog.DebugLevel {["trader" := ["trades"; "order"]]} eq_refl eq_refl)
      as (_ & H & _).
    apply (H "no seed brokers"); reflexivity.
  - destruct (startup_failure_exit_status (A := demoAuth)
      (P := demoPlatform demoVars None (Some "address in use")) defaultFlags
      zerolog.DebugLevel {["trader" := ["trades"; "order"]]} eq_refl eq_refl)
      as (_ & _ & H & _).
    apply (H "address in use"); reflexivity.
Defined.

(** ** The ingest loop *)

Lemma handRecords_app (xs ys : list kgo.Record_) :
  handRecords (xs ++ ys) = handRecords xs ++ handRecords ys.
Proof. induction xs as [|x xs IH]; [done|]. simpl. by rewrite IH. Qed.

Lemma handRecords_elem (rs : list kgo.Record_) (ev : Event) :
  ev ∈ handRecords rs ↔ ∃ r, r ∈ rs ∧ (ev = EvReceiveMsg r ∨ ev = EvCommitRecords r).
Proof.
  induction rs as [|x rs IH]; simpl.
  - split; [by intros ?%elem_of_nil | by intros (r & ?%elem_of_nil & _)].
  - rewrite !elem_of_cons, IH. split.
    + intros [->|[->|(r & Hr & Hev)]].
      * exists x. split; [by left | by left].
      * exists x. split; [by left | by right].
      * exists r. split; [by right | done].
    + intros (r & [->|Hr]%elem_of_cons & Hev).
      * destruct Hev; auto.
      * right. right. eauto.
Qed.

Lemma imap_logFetchError_elem (errs : list kgo.FetchError) (ev : Event) :
  ev ∈ imap logFetchError errs ↔
  ∃ i fe, errs !! i = Some fe ∧ ev = logFetchError i fe.
Proof.
  rewrite list_elem_of_lookup. split.
  - intros (i & Hi). rewrite list_lookup_imap in Hi.
    destruct (errs !! i) as [fe|] eqn:E; [|done].
    simpl in Hi. injection Hi as <-. eauto.
  - intros (i & fe & Hi & ->). exists i.
    by rewrite list_lookup_imap, Hi.
Qed.

Lemma ingestTurn_elem (fetches : kgo.Fetches) (ev : Event) :
  ev ∈ ingestTurn fetches ↔
    ev = EvPollFetches
    ∨ (∃ i fe, kgo.Errors fetches !! i = Some fe ∧ ev = logFetchError i fe)
    ∨ (∃ r, r ∈ kgo.Records fetches
            ∧ (ev = EvReceiveMsg r ∨ ev = EvCommitRecords r)).
Proof.
  unfold ingestTurn.
  by rewrite elem_of_cons, elem_of_app, imap_logFetchError_elem,
    handRecords_elem.
Qed.

Lemma ingestTurn_polls_once (fetches : kgo.Fetches) :
  List.length (List.filter isPoll (ingestTurn fetches)) = 1%nat.
Proof.
  unfold ingestTurn. simpl. f_equal.
  rewrite List.filter_app, length_app.
  assert (∀ errs k, List.filter isPoll (imap (λ i, logFetchError (k + i)) errs) = [])
    as Hlogs.
  { induction errs as [|fe errs IH]; intros k; [done|]. simpl.
    rewrite <- (IH (S k)). f_equal. apply imap_ext. intros i x _. simpl.
    f_equal. lia. }
  assert (∀ rs, List.filter isPoll (handRecords rs) = []) as Hrecs.
  { induction rs as [|r rs IH]; [done|]. simpl. exact IH. }
  rewrite (Hlogs _ 0%nat), Hrecs. done.
Qed.

Section Ingest.

Context `{P : Platform}.

Lemma ingestLoop_snoc (fuel n : nat) :
  ingestLoop (S fuel) n
  = ingestLoop fuel n ++ ingestTurn (PollFetches (n + fuel)).
Proof.
  revert n. induction fuel as [|fuel IH]; intros n.
  - simpl. rewrite app_nil_r. by rewrite Nat.add_0_r.
  - change (ingestLoop (S (S fuel)) n)
      with (ingestTurn (PollFetches n) ++ ingestLoop (S fuel) (S n)).
    rewrite IH. cbn [ingestLoop]. rewrite <- app_assoc.
    by replace (S n + fuel)%nat with (n + S fuel)%nat by lia.
Qed.

Lemma ingestLoop_elem (fuel n : nat) (ev : Event) :
  ev ∈ ingestLoop fuel n ↔
  ∃ k, (k < fuel)%nat ∧ ev ∈ ingestTurn (PollFetches (n + k)).
Proof.
  revert n. induction fuel as [|fuel IH]; intros n.
  - simpl. split; [by intros ?%elem_of_nil | intros (k & ? & _); lia].
  - cbn [ingestLoop]. rewrite elem_of_app, IH. split.
    + intros [H | (k & Hk & H)].
      * exists 0%nat. rewrite Nat.add_0_r. split; [lia | done].
      * exists (S k). replace (n + S k)%nat with (S n + k)%nat by lia.
        split; [lia | done].
    + intros (k & Hk & H). destruct k as [|k].
      * left. by rewrite Nat.add_0_r in H.
      * right. exists k. replace (S n + k)%nat with (n + S k)%nat by lia.
        split; [lia | done].
Qed.

Lemma ingestLoop_polls (fuel n : nat) :
  List.length (List.filter isPoll (ingestLoop fuel n)) = fuel.
Proof.
  revert n. induction fuel as [|fuel IH]; intros n; [done|].
  cbn [ingestLoop]. rewrite List.filter_app, length_app.
  by rewrite ingestTurn_polls_once, IH.
Qed.

End Ingest.

Lemma handed_without_commit (tr : list Event) :
  (∀ r, EvCommitRecords r ∉ tr) → handedBeforeCommitted tr.
Proof.
  intros Hno pre post r ->. exfalso. apply (Hno r).
  apply elem_of_app. right. by left.
Qed.

Lemma handed_app (tr1 tr2 : list Event) :
  handedBeforeCommitted tr1 → handedBeforeCommitted tr2 →
  handedBeforeCommitted (tr1 ++ tr2).
Proof.
  intros H1 H2 pre post r Heq.
  apply app_eq_inv in Heq as [(k & Htr1 & Hk) | (k & Hpre & Htr2)].
  - destruct k as [|ev k].
    + simpl in Hk. destruct (H2 [] post r) as (pre' & Hnil); [done|].
      by destruct pre'.
    + injection Hk as <- Hpost. by apply (H1 pre k r).
  - destruct (H2 k post r Htr2) as (pre' & ->).
    exists (tr1 ++ pre'). by rewrite Hpre, app_assoc.
Qed.

Lemma handed_handRecords (rs : list kgo.Record_) :
  handedBeforeCommitted (handRecords rs).
Proof.
  induction rs as [|x rs IH].
  - apply handed_without_commit. intros r. apply not_elem_of_nil.
  - change (handRecords (x :: rs))
      with ([EvReceiveMsg x; EvCommitRecords x] ++ handRecords rs).
    apply handed_app; [|done].
    intros pre post r Heq.
    destruct pre as [|e1 [|e2 [|e3 pre]]]; simplify_eq/=.
    by exists [].
Qed.

Lemma handed_ingestTurn (fetches : kgo.Fetches) :
  handedBeforeCommitted (ingestTurn fetches).
Proof.
  unfold ingestTurn.
  change (EvPollFetches :: ?l ++ ?r) with ((EvPollFetches :: l) ++ r).
  apply handed_app; [|apply handed_handRecords].
  apply handed_without_commit. intros r.
  rewrite elem_of_cons, imap_logFetchError_elem.
  intros [? | (i & fe & _ & ?)]; discriminate.
Qed.

Lemma handed_ingestLoop `{P : Platform} (fuel n : nat) :
  handedBeforeCommitted (ingestLoop fuel n).
Proof.
  revert n. induction fuel as [|fuel IH]; intros n.
  - apply handed_without_commit. intros r. apply not_elem_of_nil.
  - cbn [ingestLoop]. apply handed_app; [apply handed_ingestTurn | apply IH].
Qed.

(** An event of a kind no turn of the loop emits is not in the turn. *)
Ltac not_in_turn H :=
  apply ingestTurn_elem in H
    as [? | [(? & ? & _ & ?) | (? & _ & [?|?])]]; discriminate.

Lemma received_app (tr1 tr2 : list Event) :
  received (tr1 ++ tr2) = received tr1 ++ received tr2.
Proof.
  induction tr1 as [|ev tr1 IH]; [done|].
  destruct ev; simpl; by rewrite ?IH.
Qed.

Lemma committed_app (tr1 tr2 : list Event) :
  committed (tr1 ++ tr2) = committed tr1 ++ committed tr2.
Proof.
  induction tr1 as [|ev tr1 IH]; [done|].
  destruct ev; simpl; by rewrite ?IH.
Qed.

Lemma logs_only (tr : list Event) :
  Forall (λ ev, isLog ev = true) tr →
  received tr = [] ∧ committed tr = [] ∧ List.filter isLog tr = tr.
Proof.
  induction 1 as [|ev tr Hev _ (Hr & Hc & Hl)]; [done|].
  destruct ev; try discriminate. simpl. by rewrite Hl.
Qed.

Lemma logFetchError_logs (errs : list kgo.FetchError) :
  Forall (λ ev, isLog ev = true) (imap logFetchError errs).
Proof.
  apply Forall_forall. intros ev Hin.
  by apply imap_logFetchError_elem in Hin as (i & fe & _ & ->).
Qed.

Lemma handRecords_projections (rs : list kgo.Record_) :
  received (handRecords rs) = rs
  ∧ committed (handRecords rs) = rs
  ∧ List.filter isLog (handRecords rs) = []
  ∧ List.length (handRecords rs) = 2 * List.length rs.
Proof.
  induction rs as [|r rs (Hr & Hc & Hl & Hn)]; [done|].
  simpl. rewrite Hr, Hc, Hl, Hn. repeat split. lia.
Qed.

Lemma ingestTurn_projections (fetches : kgo.Fetches) :
  received (ingestTurn fetches) = kgo.Records fetches
  ∧ committed (ingestTurn fetches) = kgo.Records fetches
  ∧ List.filter isLog (ingestTurn fetches)
    = imap logFetchError (kgo.Errors fetches)
  ∧ List.length (ingestTurn fetches)
    = 1 + List.length (kgo.Errors fetches)
      + 2 * List.length (kgo.Records fetches).
Proof.
  unfold ingestTurn.
  destruct (logs_only _ (logFetchError_logs (kgo.Errors fetches)))
    as (Hr & Hc & Hl).
  destruct (handRecords_projections (kgo.Records fetches))
    as (Hr' & Hc' & Hl' & Hn').
  simpl in *. rewrite received_app, committed_app, List.filter_app.
  rewrite Hr, Hc, Hl, Hr', Hc', Hl', app_nil_r.
  repeat split. rewrite length_app, length_imap, Hn'. lia.
Qed.

(** C3 (as amended).  Whatever errors the fetches carry, the loop logs each
    of them, with its index, hands over and commits every record of the
    fetches, and goes on: after [fuel] turns it has polled [fuel] times, and
    one more turn appends the next poll, the log lines of its errors in
    order, and the handoffs and commits of its records.  Nowhere in the
    trace does the loop wait. *)
Theorem ingest_loop_logs_and_polls_again `{P : Platform} (fuel n : nat) :
  (∀ k i fe, (k < fuel)%nat → kgo.Errors (PollFetches (n + k)) !! i = Some fe →
     logFetchError i fe ∈ ingestLoop fuel n)
  ∧ (∀ k r, (k < fuel)%nat → r ∈ kgo.Records (PollFetches (n + k)) →
       EvReceiveMsg r ∈ ingestLoop fuel n
       ∧ EvCommitRecords r ∈ ingestLoop fuel n)
  ∧ List.length (List.filter isPoll (ingestLoop fuel n)) = fuel
  ∧ (∃ rest,
       ingestLoop (S fuel) n
       = ingestLoop fuel n
           ++ EvPollFetches
              :: imap logFetchError (kgo.Errors (PollFetches (n + fuel)))
              ++ rest
       ∧ received rest = kgo.Records (PollFetches (n + fuel))
       ∧ committed rest = kgo.Records (PollFetches (n + fuel)))
  ∧ (∀ ms, EvSleep ms ∉ ingestLoop fuel n).
Proof.
  split; [|split; [|split; [|split]]].
  - intros k i fe Hk Hfe. apply ingestLoop_elem. exists k. split; [done|].
    apply ingestTurn_elem. right. left. eauto.
  - intros k r Hk Hr. split; apply ingestLoop_elem; exists k;
      (split; [done|]); apply ingestTurn_elem; right; right; eauto.
  - apply ingestLoop_polls.
  - rewrite ingestLoop_snoc. unfold ingestTurn.
    exists (handRecords (kgo.Records (PollFetches (n + fuel)))).
    split; [done|].
    destruct (handRecords_projections (kgo.Records (PollFetches (n + fuel))))
      as (Hr & Hc & _). by split.
  - intros ms (k & _ & Hin)%ingestLoop_elem. not_in_turn Hin.
Qed.

Lemma ingest_loop_logs_and_polls_again_witness :
  logFetchError 0 {| kgo.ErrTopic := "rango.events"; kgo.ErrPartition := 0;
                     kgo.Err := "broker unreachable" |}
  ∈ ingestLoop (P := demoPlatform demoVars None None) 3 0
  ∧ EvReceiveMsg (demoRecord 0)
    ∈ ingestLoop (P := demoPlatform demoVars None None) 3 0
  ∧ EvCommitRecords (demoRecord 0)
    ∈ ingestLoop (P := demoPlatform demoVars None None) 3 0.
Proof.
  destruct (ingest_loop_logs_and_polls_again
    (P := demoPlatform demoVars None None) 3 0) as (Hlog & Hrec & _).
  split.
  - apply (Hlog 0%nat 0%nat); [lia | reflexivity].
  - apply (Hrec 0%nat); [lia | by left].
Defined.

(** C3, as stated, fails: a fetch with an error is followed by the next
    poll with no wait between 250 ms and 5 s, nor any other wait. *)
Lemma fetch_error_without_backoff :
  kgo.Errors (PollFetches (Platform := demoPlatform demoVars None None) 0) ≠ []
  ∧ ingestLoop (P := demoPlatform demoVars None None) 2 0
    = [ EvPollFetches;
        EvLog zerolog.ErrorLevel "Fetch error %d: %v"
          [ArgInt 0; ArgStr "broker unreachable"];
        EvReceiveMsg (demoRecord 0); EvCommitRecords (demoRecord 0);
        EvPollFetches;
        EvReceiveMsg (demoRecord 1); EvCommitRecords (demoRecord 1);
        EvReceiveMsg (demoRecord 101); EvCommitRecords (demoRecord 101) ]
  ∧ ¬ backsOff (ingestLoop (P := demoPlatform demoVars None None) 2 0).
Proof.
  split; [discriminate|]. split; [vm_compute; reflexivity|].
  intros (ms & _ & Hin).
  apply ingestLoop_elem in Hin as (k & _ & Hin). not_in_turn Hin.
Qed.

(** C5.  In the trace of the loop every commit of a record comes right
    after the handoff of that record to the Hub, and every fetched record
    is handed over and committed.  Once the logger and the matrix are set up
    and the key is loaded, [main] calls [kgo.NewClient], and every such call
    of [main] carries [DisableAutoCommit] among its options. *)
Theorem handoff_before_explicit_commit `{A : AuthPkg} `{P : Platform}
    (fuel n : nat) (flags : Flags) :
  (∀ pre post r, ingestLoop fuel n = pre ++ EvCommitRecords r :: post →
     ∃ pre', pre = pre' ++ [EvReceiveMsg r])
  ∧ (∀ k r, (k < fuel)%nat → r ∈ kgo.Records (PollFetches (n + k)) →
       EvReceiveMsg r ∈ ingestLoop fuel n
       ∧ EvCommitRecords r ∈ ingestLoop fuel n)
  ∧ (setupLogger ≠ None → getRBACConfig ToLower Environ ≠ None →
     snd (getPublicKey flags) = None →
     ∃ opts, EvKgoNewClient opts ∈ fst (main flags)
       ∧ kgo.DisableAutoCommit ∈ opts)
  ∧ (∀ opts, EvKgoNewClient opts ∈ fst (main flags) →
       kgo.DisableAutoCommit ∈ opts)
  ∧ kgo.DisableAutoCommit ∈ consumerOpts flags.
Proof.
  assert (kgo.DisableAutoCommit ∈ consumerOpts flags) as Hopt.
  { unfold consumerOpts. rewrite !elem_of_cons. auto. }
  split; [|split; [|split; [|split; [|done]]]].
  - apply handed_ingestLoop.
  - intros k r Hk Hr. split; apply ingestLoop_elem; exists k;
      (split; [done|]); apply ingestTurn_elem; right; right; eauto.
  - intros Hl Hr Hk. exists (consumerOpts flags). split; [|done].
    by apply main_creates_client.
  - intros opts Hin. by rewrite (main_client_opts flags opts Hin).
Qed.

Lemma handoff_before_explicit_commit_witness :
  EvReceiveMsg (demoRecord 101)
  ∈ ingestLoop (P := demoPlatform demoVars None None) 2 0
  ∧ EvCommitRecords (demoRecord 101)
    ∈ ingestLoop (P := demoPlatform demoVars None None) 2 0
  ∧ ∃ opts,
      EvKgoNewClient opts
      ∈ fst (main (A := demoAuth) (P := demoPlatform demoVars None None)
               defaultFlags)
      ∧ kgo.DisableAutoCommit ∈ opts.
Proof.
  destruct (handoff_before_explicit_commit (A := demoAuth)
    (P := demoPlatform demoVars None None) 2 0 defaultFlags)
    as (_ & Hrec & Hmain & _).
  destruct (Hrec 1%nat (demoRecord 101)) as [H1 H2];
    [lia | by right; left |].
  split; [exact H1|]. split; [exact H2|].
  apply Hmain; [discriminate | discriminate | reflexivity].
Defined.

(** * Further properties of the code *)

(** ** The bearer token *)

Lemma HasPrefix_app (p t : string) : strings.HasPrefix (p +:+ t) p = true.
Proof.
  unfold strings.HasPrefix. induction p as [|a p IH]; simpl.
  - by destruct t.
  - by destruct (ascii_dec a a).
Qed.

Lemma sliceFrom_app (p t : string) :
  strings.sliceFrom (String.length p) (p +:+ t) = t.
Proof. induction p as [|a p IH]; [done | exact IH]. Qed.

Lemma HasPrefix_split (s p : string) :
  strings.HasPrefix s p = true →
  s = p +:+ strings.sliceFrom (String.length p) s.
Proof.
  unfold strings.HasPrefix. revert s.
  induction p as [|a p IH]; intros s Hp; [done|].
  destruct s as [|b s]; [done|]. simpl in *.
  destruct (ascii_dec a b) as [<-|]; [|done].
  change (String a s = String a (p +:+ strings.sliceFrom (String.length p) s)).
  f_equal. auto.
Qed.

(** X1.  [token] undoes the [Bearer ] scheme: the header [Bearer t] gives
    [t], and a token that is not empty comes from exactly that header. *)
Theorem token_bearer_round_trip (r : http.Request) :
  (∀ t, http.Get (http.Header r) "Authorization" = prefix +:+ t → token r = t)
  ∧ (token r ≠ "" →
     http.Get (http.Header r) "Authorization" = prefix +:+ token r).
Proof.
  unfold token. split.
  - intros t ->. rewrite HasPrefix_app. simpl negb. cbv iota.
    apply sliceFrom_app.
  - destruct (strings.HasPrefix _ prefix) eqn:Hp; simpl; [|done].
    intros _. by apply HasPrefix_split.
Qed.

Lemma token_bearer_round_trip_witness :
  token (demoRequest "/" [("Authorization", "Bearer a.b.c")]) = "a.b.c"
  ∧ http.Get (http.Header (demoRequest "/" [("Authorization", "Bearer a.b.c")]))
      "Authorization"
    = prefix +:+ token (demoRequest "/" [("Authorization", "Bearer a.b.c")]).
Proof.
  destruct (token_bearer_round_trip
    (demoRequest "/" [("Authorization", "Bearer a.b.c")])) as [H1 H2].
  split; [by apply H1 | apply H2; discriminate].
Defined.

(** ** The wrapped handler's request *)

Lemma identified_other (r : http.Request) (auth : Auth) (k : string) :
  k ≠ http.CanonicalMIMEHeaderKey "JwtUID" →
  k ≠ http.CanonicalMIMEHeaderKey "JwtRole" →
  http.Header (identified r auth) !! k = http.Header r !! k.
Proof.
  intros H1 H2. unfold identified, http.Set_. simpl.
  by rewrite !lookup_insert_ne.
Qed.

Lemma anonymous_other (r : http.Request) (k : string) :
  k ≠ http.CanonicalMIMEHeaderKey "JwtUID" →
  k ≠ http.CanonicalMIMEHeaderKey "JwtRole" →
  http.Header (anonymous r) !! k = http.Header r !! k.
Proof.
  intros H1 H2. unfold anonymous, http.Del. simpl.
  by rewrite !lookup_delete_ne.
Qed.

(** X2.  [authHandler] either refuses (a required endpoint and a token that
    does not validate) or calls the wrapped handler once, on a request with
    the same path and the same headers as the incoming one under every key
    but [JwtUID] and [JwtRole]: the [Authorization] header, among others,
    is passed on untouched. *)
Theorem authHandler_touches_jwt_headers_only `{A : AuthPkg}
    (key : option rsa_PublicKey) (mustAuth : bool) (r : http.Request) :
  (mustAuth = true
   ∧ snd (ParseAndValidate (token r) key) ≠ None
   ∧ ∀ h : httpHanlder, authHandler h key mustAuth r = [EvWriteHeader 401])
  ∨ ((mustAuth = false ∨ snd (ParseAndValidate (token r) key) = None)
     ∧ ∃ r', (∀ h : httpHanlder, authHandler h key mustAuth r = h r')
        ∧ http.URLPath r' = http.URLPath r
        ∧ http.Get (http.Header r') "Authorization"
          = http.Get (http.Header r) "Authorization"
        ∧ ∀ k, k ≠ http.CanonicalMIMEHeaderKey "JwtUID" →
               k ≠ http.CanonicalMIMEHeaderKey "JwtRole" →
               http.Header r' !! k = http.Header r !! k).
Proof.
  destruct (ParseAndValidate (token r) key) as [auth [e|]] eqn:Hv; simpl.
  - destruct mustAuth.
    + left. split; [done|]. split; [done|]. intros h.
      by apply (authHandler_invalid_must _ _ _ auth e).
    + right. split; [by left|]. exists (anonymous r).
      split; [intros h; by apply (authHandler_invalid_optional _ _ _ auth e)|].
      split; [done|]. split; [|apply anonymous_other].
      unfold http.Get. by rewrite anonymous_other.
  - right. split; [by right|]. exists (identified r auth).
    split; [intros h; by apply authHandler_valid|].
    split; [done|]. split; [|apply identified_other].
    unfold http.Get. by rewrite identified_other.
Qed.

(** X3.  A token that validates is admitted on every endpoint, [/private]
    included: for a request with a clean path (one the mux does not
    redirect) the WebSocket handler runs once, no status is written, and it
    reads the validated identity under [JwtUID] and [JwtRole]. *)
Theorem validated_token_admitted_everywhere `{A : AuthPkg}
    (pub : option rsa_PublicKey) (r : http.Request) (auth : Auth) :
  cleanPath (http.URLPath r) = http.URLPath r →
  ParseAndValidate (token r) pub = (auth, None) →
  ServeHTTP (handlers pub) r = [EvNewClient (identified r auth)]
  ∧ http.Get (http.Header (identified r auth)) "JwtUID" = UID auth
  ∧ http.Get (http.Header (identified r auth)) "JwtRole" = Role auth.
Proof.
  intros Hclean Hv. split; [|apply identified_Get].
  rewrite ServeHTTP_handlers_clean by done.
  by rewrite (authHandler_valid _ _ _ _ auth).
Qed.

Lemma validated_token_admitted_everywhere_witness :
  ServeHTTP (handlers (A := demoAuth) (Some demoKey))
    (demoRequest "/private" [("Authorization", "Bearer good")])
  = [EvNewClient
       (identified (demoRequest "/private" [("Authorization", "Bearer good")])
          {| UID := "alice"; Role := "trader" |})].
Proof.
  apply (validated_token_admitted_everywhere (A := demoAuth) (Some demoKey)
           (demoRequest "/private" [("Authorization", "Bearer good")])
           {| UID := "alice"; Role := "trader" |}); reflexivity.
Defined.



(** ** More on the Access Matrix *)

Lemma filterPrefixed_filter (p : string) (arr : list string) :
  filterPrefixed p arr = List.filter (λ rec, strings.HasPrefix rec p) arr.
Proof.
  induction arr as [|x arr IH]; [done|]. simpl.
  destruct (strings.HasPrefix x p); by rewrite IH.
Qed.

(** X5.  [filterPrefixed] keeps every occurrence of every record that
    starts with the prefix and drops all the others, in the order of the
    input: a record stands in the result as often as in the input when it
    has the prefix, and not at all when it has not.  Filtering twice changes
    nothing. *)
Theorem filterPrefixed_sublist_of_prefixed (p : string) (arr : list string) :
  filterPrefixed p arr `sublist_of` arr
  ∧ (∀ rec, List.length (List.filter (String.eqb rec) (filterPrefixed p arr))
            = if strings.HasPrefix rec p
              then List.length (List.filter (String.eqb rec) arr)
              else 0%nat)
  ∧ filterPrefixed p arr = List.filter (λ rec, strings.HasPrefix rec p) arr
  ∧ (∀ rec, rec ∈ filterPrefixed p arr
       ↔ rec ∈ arr ∧ strings.HasPrefix rec p = true)
  ∧ filterPrefixed p (filterPrefixed p arr) = filterPrefixed p arr.
Proof.
  split; [|split; [|split; [apply filterPrefixed_filter|]]].
  - induction arr as [|x arr IH]; [done|]. simpl.
    destruct (strings.HasPrefix x p);
      [by apply sublist_skip | by apply sublist_cons].
  - intros rec. induction arr as [|x arr IH]; [by destruct (strings.HasPrefix _ _)|].
    simpl. destruct (String.eqb rec x) eqn:Hx.
    + apply String.eqb_eq in Hx as <-.
      destruct (strings.HasPrefix rec p); [|exact IH].
      simpl. rewrite String.eqb_refl. simpl. by rewrite IH.
    + destruct (strings.HasPrefix x p); [|exact IH].
      simpl. by rewrite Hx.
  - split; [intros rec; apply filterPrefixed_elem | apply filterPrefixed_idem].
Qed.

Section MoreMatrixFacts.

Variable toLower : string -> string.

Lemma envToMatrix_step_None (p : string) (m : gmap string (list string))
    (rec : string) :
  envToMatrix_step toLower p m rec = None
  ↔ strings.ContainsByte rec "=" = false.
Proof.
  destruct (strings.ContainsByte rec "=") eqn:Hin.
  - rewrite envToMatrix_step_eq by done. split; discriminate.
  - by rewrite envToMatrix_step_panics.
Qed.

Lemma envToMatrix_loop_None (p : string) (m : gmap string (list string))
    (env : list string) :
  envToMatrix_loop toLower p m env = None
  ↔ ∃ rec, rec ∈ env ∧ strings.ContainsByte rec "=" = false.
Proof.
  revert m. induction env as [|x env IH]; intros m; simpl.
  - split; [discriminate | by intros (rec & ?%elem_of_nil & _)].
  - destruct (envToMatrix_step toLower p m x) as [m'|] eqn:Hstep; simpl.
    + rewrite IH. split.
      * intros (rec & Hin & Hrec). exists rec. split; [by right | done].
      * intros (rec & [->|Hin]%elem_of_cons & Hrec); [|eauto].
        apply (envToMatrix_step_None p m) in Hrec. congruence.
    + split; [|done]. intros _. exists x. split; [by left|].
      by apply (envToMatrix_step_None p m).
Qed.

(** The matrix after the loop, key by key, for any records. *)
Lemma envToMatrix_lookup (p : string) (env : list string)
    (matr : gmap string (list string)) :
  envToMatrix toLower env p = Some matr →
  (∀ k, matr !! k
     = entryValue
         <$> last (List.filter (λ rec, String.eqb (entryKey toLower p rec) k) env))
  ∧ (size matr ≤ List.length env)%nat.
Proof.
  unfold envToMatrix. revert matr.
  induction env as [|rec env IH] using rev_ind; intros matr Hm.
  - injection Hm as <-. split; [intros k; by rewrite lookup_empty | done].
  - rewrite envToMatrix_loop_snoc in Hm.
    destruct (envToMatrix_loop toLower p ∅ env) as [m0|]; [|done].
    simpl in Hm. destruct (IH m0 eq_refl) as [Hlook Hsize].
    destruct (strings.ContainsByte rec "=") eqn:Hin.
    2:{ by rewrite envToMatrix_step_panics in Hm. }
    rewrite envToMatrix_step_eq in Hm by done. injection Hm as <-.
    fold (entryKey toLower p rec). fold (entryValue rec). split.
    + intros k. rewrite List.filter_app. simpl.
      rewrite lookup_insert. case_decide as Hk.
      * apply String.eqb_eq in Hk. rewrite Hk. by rewrite last_snoc.
      * apply String.eqb_neq in Hk. rewrite Hk, app_nil_r. apply Hlook.
    + rewrite map_size_insert, length_app. simpl.
      destruct (m0 !! entryKey toLower p rec); simpl; lia.
Qed.

End MoreMatrixFacts.

Lemma getRBACConfig_None (toLower : string → string) (envs : list string) :
  getRBACConfig toLower envs = None
  ↔ ∃ rec, rec ∈ envs ∧ strings.HasPrefix rec rbacPrefix = true
           ∧ strings.ContainsByte rec "=" = false.
Proof.
  unfold getRBACConfig, envToMatrix. fold rbacPrefix.
  rewrite envToMatrix_loop_None. split.
  - intros (rec & [Hin Hpre]%filterPrefixed_elem & Hrec). eauto.
  - intros (rec & Hin & Hpre & Hrec). exists rec.
    split; [by apply filterPrefixed_elem | done].
Qed.

(** X6.  Building the matrix panics (index out of range) exactly when some
    environment record with the [RANGO_RBAC_] prefix has no ['=']; a record
    without the prefix cannot make it panic, and without such a record a
    matrix is returned. *)
Theorem getRBACConfig_panics_iff (toLower : string → string)
    (envs : list string) :
  (getRBACConfig toLower envs = None
   ↔ ∃ rec, rec ∈ envs ∧ strings.HasPrefix rec rbacPrefix = true
            ∧ strings.ContainsByte rec "=" = false)
  ∧ ((∀ rec, rec ∈ envs → strings.HasPrefix rec rbacPrefix = true →
        strings.ContainsByte rec "=" = true)
     → is_Some (getRBACConfig toLower envs)).
Proof.
  split; [apply getRBACConfig_None|].
  intros Hall. destruct (getRBACConfig toLower envs) eqn:E; [done|].
  apply getRBACConfig_None in E as (rec & Hin & Hpre & Hno).
  rewrite (Hall rec Hin Hpre) in Hno. discriminate.
Qed.

Lemma getRBACConfig_panics_iff_witness :
  getRBACConfig strings.ToLowerASCII ["HOME=/root"; "RANGO_RBAC_TRADER"] = None.
Proof.
  apply (getRBACConfig_panics_iff strings.ToLowerASCII
           ["HOME=/root"; "RANGO_RBAC_TRADER"]).
  exists "RANGO_RBAC_TRADER". split; [by right; left | by split].
Defined.

(** X7.  In [envToMatrix] a later record replaces, and does not extend, the
    entry of an earlier record with the same key: each key holds the value
    of the last record that yields it, and the matrix has no more entries
    than there are records. *)
Theorem envToMatrix_last_record_wins (toLower : string → string)
    (trimPrefix : string) (env : list string)
    (matr : gmap string (list string)) :
  envToMatrix toLower env trimPrefix = Some matr →
  (∀ k, matr !! k
     = entryValue
         <$> last (List.filter
                     (λ rec, String.eqb (entryKey toLower trimPrefix rec) k) env))
  ∧ (∀ rec patterns, matr !! entryKey toLower trimPrefix rec = Some patterns →
       envToMatrix toLower (env ++ [rec]) trimPrefix ≠ None →
       ∃ matr', envToMatrix toLower (env ++ [rec]) trimPrefix = Some matr'
         ∧ matr' !! entryKey toLower trimPrefix rec = Some (entryValue rec)
         ∧ size matr' = size matr)
  ∧ (size matr ≤ List.length env)%nat.
Proof.
  intros Hm. destruct (envToMatrix_lookup toLower trimPrefix env matr Hm)
    as [Hlook Hsize].
  split; [done|]. split; [|done].
  intros rec patterns Hold Hok. unfold envToMatrix in *.
  rewrite envToMatrix_loop_snoc, Hm in *. simpl in *.
  destruct (strings.ContainsByte rec "=") eqn:Hin.
  2:{ by rewrite envToMatrix_step_panics in Hok. }
  rewrite envToMatrix_step_eq by done. eexists. split; [done|].
  fold (entryKey toLower trimPrefix rec). fold (entryValue rec).
  split; [apply lookup_insert_eq|].
  rewrite map_size_insert. by rewrite Hold.
Qed.

Lemma envToMatrix_last_record_wins_witness :
  ∃ matr,
    envToMatrix strings.ToLowerASCII
      ["RANGO_RBAC_A=x,y"; "RANGO_RBAC_B=z"; "RANGO_RBAC_a=w"] "RANGO_RBAC_"
    = Some matr
    ∧ matr !! "a" = Some ["w"] ∧ matr !! "b" = Some ["z"].
Proof.
  eexists. split; [vm_compute; reflexivity|].
  destruct (envToMatrix_last_record_wins strings.ToLowerASCII "RANGO_RBAC_"
    ["RANGO_RBAC_A=x,y"; "RANGO_RBAC_B=z"; "RANGO_RBAC_a=w"] _ eq_refl)
    as (Hlook & _).
  split; rewrite Hlook; reflexivity.
Defined.

(** ** The patterns of an entry *)

Lemma Split_segments_free (s : string) (sep : ascii) (seg : string) :
  seg ∈ strings.Split s sep → strings.ContainsByte seg sep = false.
Proof.
  revert seg. induction s as [|c s IH]; intros seg; simpl.
  - by intros ->%list_elem_of_singleton.
  - destruct (Ascii.eqb c sep) eqn:Hc.
    + intros [->|Hin]%elem_of_cons; [done | auto].
    + destruct (strings.Split s sep) as [|x xs] eqn:E;
        [by apply Split_nonempty in E|].
      intros [->|Hin]%elem_of_cons.
      * simpl. rewrite Hc. apply IH. by left.
      * apply IH. by right.
Qed.

Lemma Split_segments_keep_free (s : string) (sep c : ascii) (seg : string) :
  strings.ContainsByte s c = false →
  seg ∈ strings.Split s sep → strings.ContainsByte seg c = false.
Proof.
  revert seg. induction s as [|x s IH]; intros seg; simpl.
  - by intros _ ->%list_elem_of_singleton.
  - intros [Hx Hs]%orb_false_iff. specialize (λ seg, IH seg Hs).
    destruct (Ascii.eqb x sep).
    + intros [->|Hin]%elem_of_cons; [done | auto].
    + destruct (strings.Split s sep) as [|y ys] eqn:E;
        [by apply Split_nonempty in E|].
      intros [->|Hin]%elem_of_cons.
      * simpl. rewrite Hx. apply IH. by left.
      * apply IH. by right.
Qed.

Lemma envName_free (s : string) : strings.ContainsByte (envName s) "=" = false.
Proof.
  induction s as [|c s IH]; [done|]. simpl.
  destruct (Ascii.eqb c "=") eqn:Hc; [done|]. simpl. by rewrite Hc.
Qed.

Lemma joinBy_Split (s : string) (sep : ascii) :
  joinBy sep (strings.Split s sep) = s.
Proof.
  induction s as [|c s IH]; [done|]. simpl.
  destruct (strings.Split s sep) as [|x xs] eqn:E;
    [by apply Split_nonempty in E|].
  destruct (Ascii.eqb c sep) eqn:Hc.
  - apply Ascii.eqb_eq in Hc as ->.
    change (joinBy sep ("" :: x :: xs)) with (String sep (joinBy sep (x :: xs))).
    by rewrite IH.
  - destruct xs as [|y ys].
    + simpl in *. by rewrite IH.
    + change (joinBy sep (String c x :: y :: ys))
        with (String c (joinBy sep (x :: y :: ys))).
      by rewrite IH.
Qed.

Lemma Split_length (s : string) (sep : ascii) :
  List.length (strings.Split s sep) = S (countByte s sep).
Proof.
  induction s as [|c s IH]; [done|]. simpl.
  destruct (Ascii.eqb c sep); simpl; [by rewrite IH|].
  destruct (strings.Split s sep) as [|x xs] eqn:E;
    [by apply Split_nonempty in E|]. exact IH.
Qed.

(** X8.  Whatever the environment, every entry of the matrix has a key in
    the image of [ToLower], and a list of patterns that is not empty and
    whose patterns hold neither a comma nor an ['=']: an empty value gives
    the one empty pattern, never an empty list. *)
Theorem matrix_entries_well_formed (toLower : string → string)
    (envs : list string) (matr : gmap string (list string))
    (role : string) (patterns : list string) :
  getRBACConfig toLower envs = Some matr →
  matr !! role = Some patterns →
  (∃ name, role = toLower name)
  ∧ patterns ≠ []
  ∧ ∀ pat, pat ∈ patterns →
      strings.ContainsByte pat "," = false
      ∧ strings.ContainsByte pat "=" = false.
Proof.
  unfold getRBACConfig. intros Hm Hrole.
  destruct (envToMatrix_lookup toLower _ _ _ Hm) as [Hlook _].
  rewrite Hlook in Hrole. apply fmap_Some in Hrole as (rec & Hlast & ->).
  apply last_Some_elem_of, list_elem_of_In, List.filter_In in Hlast
    as [_ Hkey]. apply String.eqb_eq in Hkey.
  split; [rewrite <- Hkey; unfold entryKey; eauto|].
  split; [apply Split_nonempty|].
  intros pat Hpat. split.
  - by apply (Split_segments_free _ _ _ Hpat).
  - apply (Split_segments_keep_free _ _ _ _ (envName_free _) Hpat).
Qed.

Lemma matrix_entries_well_formed_witness :
  getRBACConfig strings.ToLowerASCII ["RANGO_RBAC_GUEST="; "HOME=/root"]
  = Some {["guest" := [""]]}
  ∧ [""] ≠ ([] : list string).
Proof.
  split; [reflexivity|].
  apply (matrix_entries_well_formed strings.ToLowerASCII
           ["RANGO_RBAC_GUEST="; "HOME=/root"] {["guest" := [""]]} "guest" [""]);
    reflexivity.
Defined.

(** X9.  For an environment of plain records the patterns of an entry,
    joined by commas again, are the value of the variable that governs the
    role last: the matrix loses no text of that value. *)
Theorem matrix_patterns_round_trip (toLower : string → string)
    (envs : list string) (matr : gmap string (list string))
    (role : string) (patterns : list string) :
  (∀ rec, rec ∈ envs → strings.HasPrefix rec rbacPrefix = true → plainRecord rec) →
  getRBACConfig toLower envs = Some matr →
  matr !! role = Some patterns →
  ∃ rec, last (List.filter (governs toLower role) envs) = Some rec
    ∧ joinBy "," patterns = envValue rec
    ∧ List.length patterns = S (countByte (envValue rec) ",").
Proof.
  intros Hplain Hm Hrole.
  destruct (getRBACConfig_plain toLower envs Hplain) as (m & Hm' & Hlook).
  rewrite Hm in Hm'. injection Hm' as <-.
  rewrite Hlook in Hrole. apply fmap_Some in Hrole as (rec & Hlast & ->).
  exists rec. split; [done|]. unfold patternsOf.
  split; [apply joinBy_Split | apply Split_length].
Qed.

Lemma matrix_patterns_round_trip_witness :
  ∃ rec,
    last (List.filter (governs strings.ToLowerASCII "trader")
            ["RANGO_RBAC_TRADER=trades,order"; "PATH=/bin"]) = Some rec
    ∧ joinBy "," ["trades"; "order"] = envValue rec.
Proof.
  destruct (matrix_patterns_round_trip strings.ToLowerASCII
    ["RANGO_RBAC_TRADER=trades,order"; "PATH=/bin"]
    {["trader" := ["trades"; "order"]]} "trader" ["trades"; "order"])
    as (rec & Hrec & Hjoin & _).
  - intros rec Hrec _.
    repeat (apply elem_of_cons in Hrec as [->|Hrec]; [by split|]).
    inversion Hrec.
  - reflexivity.
  - reflexivity.
  - exists rec. by split.
Defined.

(** X10.  A record without the [RANGO_RBAC_] prefix has no effect on the
    matrix, wherever it stands in the environment and whatever it holds (no
    ['='] even): the result, panic included, is the same without it. *)
Theorem getRBACConfig_ignores_unprefixed (toLower : string → string)
    (before after : list string) (rec : string) :
  strings.HasPrefix rec rbacPrefix = false →
  getRBACConfig toLower (before ++ rec :: after)
  = getRBACConfig toLower (before ++ after).
Proof.
  intros Hpre. unfold getRBACConfig. fold rbacPrefix.
  rewrite !filterPrefixed_app. simpl. by rewrite Hpre.
Qed.

Lemma getRBACConfig_ignores_unprefixed_witness :
  getRBACConfig strings.ToLowerASCII
    ["RANGO_RBAC_TRADER=trades"; "no-equals-sign"; "RANGO_RBAC_ADMIN=*"]
  = getRBACConfig strings.ToLowerASCII
      ["RANGO_RBAC_TRADER=trades"; "RANGO_RBAC_ADMIN=*"].
Proof.
  apply (getRBACConfig_ignores_unprefixed strings.ToLowerASCII
           ["RANGO_RBAC_TRADER=trades"] ["RANGO_RBAC_ADMIN=*"] "no-equals-sign").
  reflexivity.
Defined.

(** ** The listen address and the consumer options *)

Lemma getEnv_nonempty `{P : Platform} (name value : string) :
  value ≠ "" → getEnv name value ≠ "".
Proof.
  intros Hv. unfold getEnv.
  destruct (String.eqb (Getenv name) "") eqn:E; [done|].
  by apply String.eqb_neq in E.
Qed.

Lemma getEnv_unset `{P : Platform} (name value : string) :
  LookupEnv name = None ∨ LookupEnv name = Some "" →
  getEnv name value = value.
Proof. unfold getEnv, Getenv. by intros [-> | ->]. Qed.

Lemma getEnv_set `{P : Platform} (name value v : string) :
  LookupEnv name = Some v → v ≠ "" → getEnv name value = v.
Proof.
  unfold getEnv, Getenv. intros -> Hv. apply String.eqb_neq in Hv.
  by rewrite Hv.
Qed.

Lemma append_nonempty_l (a b : string) : a ≠ "" → a +:+ b ≠ "".
Proof. by destruct a. Qed.

(** X11.  The listen address is the [ws-addr] flag when that is given,
    whatever the environment holds.  Otherwise it is [host:port] with a
    host and a port that are never empty: a variable that is unset, or set
    to the empty string, gives way to [0.0.0.0] and [8080]. *)
Theorem getServerAddress_flag_then_env `{P : Platform} (flags : Flags) :
  (wsAddr flags ≠ "" → getServerAddress flags = wsAddr flags)
  ∧ (wsAddr flags = "" →
     ∃ host port, getServerAddress flags = host +:+ ":" +:+ port
       ∧ host ≠ "" ∧ port ≠ ""
       ∧ (LookupEnv "RANGER_HOST" = None ∨ LookupEnv "RANGER_HOST" = Some ""
          → host = "0.0.0.0")
       ∧ (LookupEnv "RANGER_PORT" = None ∨ LookupEnv "RANGER_PORT" = Some ""
          → port = "8080")
       ∧ (∀ v, LookupEnv "RANGER_HOST" = Some v → v ≠ "" → host = v)
       ∧ (∀ v, LookupEnv "RANGER_PORT" = Some v → v ≠ "" → port = v))
  ∧ getServerAddress flags ≠ "".
Proof.
  unfold getServerAddress.
  destruct (String.eqb (wsAddr flags) "") eqn:E; simpl.
  - apply String.eqb_eq in E. split; [done|]. split.
    + intros _. exists (getEnv "RANGER_HOST" "0.0.0.0"), (getEnv "RANGER_PORT" "8080").
      split; [done|].
      split; [by apply getEnv_nonempty|]. split; [by apply getEnv_nonempty|].
      split; [apply getEnv_unset|]. split; [apply getEnv_unset|].
      split; intros v; apply getEnv_set.
    + apply append_nonempty_l. by apply getEnv_nonempty.
  - apply String.eqb_neq in E. split; [done|]. split; [done | exact E].
Qed.

Lemma getServerAddress_flag_then_env_witness :
  getServerAddress
    (P := demoPlatform [("RANGER_HOST", ""); ("RANGER_PORT", "9000")] None None)
    defaultFlags
  = "0.0.0.0:9000".
Proof.
  destruct (getServerAddress_flag_then_env
    (P := demoPlatform [("RANGER_HOST", ""); ("RANGER_PORT", "9000")] None None)
    defaultFlags) as (_ & H & _).
  destruct (H eq_refl) as (host & port & -> & _ & _ & Hh & _ & _ & Hp).
  rewrite Hh by (by right). by rewrite (Hp "9000").
Defined.



(** ** More on [main] *)

Section MoreMain.

Context `{A : AuthPkg} `{P : Platform}.

Lemma setupLogger_None :
  setupLogger = None
  ↔ ∃ v, LookupEnv "LOG_LEVEL" = Some v ∧ ParseLevel (ToLower v) = None.
Proof.
  unfold setupLogger. destruct (LookupEnv "LOG_LEVEL") as [v|].
  - destruct (ParseLevel (ToLower v)) eqn:E.
    + split; [discriminate | intros (v' & [= <-] & ?); congruence].
    + split; [eauto | done].
  - split; [discriminate | by intros (v & ? & _)].
Qed.

Lemma main_panicked (flags : Flags) :
  snd (main flags) = Panicked
  ↔ setupLogger = None ∨ getRBACConfig ToLower Environ = None.
Proof.
  unfold main. destruct setupLogger; [|by split; [left|]].
  destruct (getRBACConfig ToLower Environ); [|by split; [right|]].
  destruct (getPublicKey flags) as [pub [e|]];
    [split; [discriminate | intros [|]; discriminate]|].
  destruct (kgo_NewClient (consumerOpts flags));
    [split; [discriminate | intros [|]; discriminate]|].
  destruct (ListenAndServe (getServerAddress flags));
    split; try discriminate; intros [|]; discriminate.
Qed.

Lemma main_panicked_trace (flags : Flags) :
  snd (main flags) = Panicked → fst (main flags) = [].
Proof.
  unfold main. destruct setupLogger; [|done].
  destruct (getRBACConfig ToLower Environ); [|done].
  destruct (getPublicKey flags) as [pub [e|]]; [discriminate|].
  destruct (kgo_NewClient (consumerOpts flags)); [discriminate|].
  destruct (ListenAndServe (getServerAddress flags)); discriminate.
Qed.

End MoreMain.

(** X13.  [main] panics exactly when [LOG_LEVEL] is set to something
    [zerolog] cannot parse (after lowercasing), or when a [RANGO_RBAC_]
    record of the environment has no ['=']; it then has logged nothing,
    loaded no key and created no consumer. *)
Theorem main_panics_iff `{A : AuthPkg} `{P : Platform} (flags : Flags) :
  (snd (main flags) = Panicked
   ↔ (∃ v, LookupEnv "LOG_LEVEL" = Some v ∧ ParseLevel (ToLower v) = None)
     ∨ (∃ rec, rec ∈ Environ ∧ strings.HasPrefix rec rbacPrefix = true
               ∧ strings.ContainsByte rec "=" = false))
  ∧ (snd (main flags) = Panicked →
     fst (main flags) = [] ∧ exitCode (snd (main flags)) = Some 2%Z).
Proof.
  split.
  - by rewrite main_panicked, setupLogger_None, getRBACConfig_None.
  - intros Hp. split; [by apply main_panicked_trace | by rewrite Hp].
Qed.

Lemma main_panics_iff_witness :
  main (A := demoAuth)
    (P := demoPlatform [("LOG_LEVEL", "LOUD"); ("JWT_PUBLIC_KEY", "PEM")] None None)
    defaultFlags
  = ([], Panicked).
Proof.
  destruct (main_panics_iff (A := demoAuth)
    (P := demoPlatform [("LOG_LEVEL", "LOUD"); ("JWT_PUBLIC_KEY", "PEM")] None None)
    defaultFlags) as [Hiff Htrace].
  assert (snd (main (A := demoAuth)
    (P := demoPlatform [("LOG_LEVEL", "LOUD"); ("JWT_PUBLIC_KEY", "PEM")] None None)
    defaultFlags) = Panicked) as Hp.
  { apply Hiff. left. exists "LOUD". split; reflexivity. }
  destruct (Htrace Hp) as [Ht _].
  rewrite (surjective_pairing (main _)). by rewrite Ht, Hp.
Defined.

(** X14.  [main] creates the upstream consumer only once the key is loaded,
    and at most once; it sleeps only on a key failure, for two seconds, and
    then returns; it announces [Starting rango...] exactly when the consumer
    was created without error. *)
Theorem main_consumer_after_key `{A : AuthPkg} `{P : Platform} (flags : Flags) :
  (∀ opts, EvKgoNewClient opts ∈ fst (main flags) →
     snd (getPublicKey flags) = None ∧ opts = consumerOpts flags)
  ∧ (List.length (List.filter
        (λ ev, match ev with EvKgoNewClient _ => true | _ => false end)
        (fst (main flags))) ≤ 1)%nat
  ∧ (∀ ms, EvSleep ms ∈ fst (main flags) →
       ms = 2000%Z ∧ snd (getPublicKey flags) ≠ None
       ∧ snd (main flags) = Returned)
  ∧ (EvLog zerolog.InfoLevel "Starting rango..." [] ∈ fst (main flags)
     ↔ EvKgoNewClient (consumerOpts flags) ∈ fst (main flags)
       ∧ kgo_NewClient (consumerOpts flags) = None).
Proof.
  unfold main. destruct setupLogger.
  2:{ simpl. split; [intros ? Hin; by apply elem_of_nil in Hin|].
      split; [lia|]. split; [intros ? Hin; by apply elem_of_nil in Hin|].
      split; [intros Hin | intros [Hin _]]; by apply elem_of_nil in Hin. }
  destruct (getRBACConfig ToLower Environ).
  2:{ simpl. split; [intros ? Hin; by apply elem_of_nil in Hin|].
      split; [lia|]. split; [intros ? Hin; by apply elem_of_nil in Hin|].
      split; [intros Hin | intros [Hin _]]; by apply elem_of_nil in Hin. }
  destruct (getPublicKey flags) as [pub [e|]]; simpl.
  { split; [|split; [lia|split]].
    - intros opts. rewrite !elem_of_cons, elem_of_nil.
      intros [?|[?|[]]]; discriminate.
    - intros ms. rewrite !elem_of_cons, elem_of_nil.
      intros [?|[[= ->]|[]]]; [discriminate | done].
    - rewrite !elem_of_cons, !elem_of_nil.
      split; [intros [?|[?|[]]]; discriminate
             | intros [[?|[?|[]]] _]; discriminate]. }
  destruct (kgo_NewClient (consumerOpts flags)) as [e|] eqn:Hc; simpl.
  { split; [|split; [lia|split]].
    - intros opts. rewrite !elem_of_cons, elem_of_nil.
      intros [[= ->]|[?|[]]]; [done | discriminate].
    - intros ms. rewrite !elem_of_cons, elem_of_nil.
      intros [?|[?|[]]]; discriminate.
    - rewrite !elem_of_cons, !elem_of_nil.
      split; [intros [?|[?|[]]]; discriminate | intros [_ ?]; discriminate]. }
  destruct (ListenAndServe (getServerAddress flags)); simpl.
  - split; [|split; [lia|split]].
    + intros opts. rewrite !elem_of_cons, elem_of_nil.
      intros [[= ->]|[?|[?|[?|[]]]]]; [done | discriminate..].
    + intros ms. rewrite !elem_of_cons, elem_of_nil.
      intros [?|[?|[?|[?|[]]]]]; discriminate.
    + rewrite !elem_of_cons. split; [intros _; split; [by left | done]|].
      intros _. right. by left.
  - split; [|split; [lia|split]].
    + intros opts. rewrite !elem_of_cons, elem_of_nil.
      intros [[= ->]|[?|[?|[]]]]; [done | discriminate..].
    + intros ms. rewrite !elem_of_cons, elem_of_nil.
      intros [?|[?|[?|[]]]]; discriminate.
    + rewrite !elem_of_cons. split; [intros _; split; [by left | done]|].
      intros _. right. by left.
Qed.

Lemma main_consumer_after_key_witness :
  EvKgoNewClient
    (consumerOpts (P := demoPlatform demoVars (Some "no seed brokers") None)
       defaultFlags)
  ∈ fst (main (A := demoAuth)
           (P := demoPlatform demoVars (Some "no seed brokers") None)
           defaultFlags)
  ∧ snd (getPublicKey (A := demoAuth)
           (P := demoPlatform demoVars (Some "no seed brokers") None)
           defaultFlags) = None.
Proof.
  assert (EvKgoNewClient
    (consumerOpts (P := demoPlatform demoVars (Some "no seed brokers") None)
       defaultFlags)
    ∈ fst (main (A := demoAuth)
             (P := demoPlatform demoVars (Some "no seed brokers") None)
             defaultFlags)) as Hin by (by left).
  split; [exact Hin|].
  destruct (main_consumer_after_key (A := demoAuth)
    (P := demoPlatform demoVars (Some "no seed brokers") None) defaultFlags)
    as (H & _).
  by destruct (H _ Hin).
Defined.

(** X15.  [main] gets to serve exactly when the logger and the matrix are
    set up, the key is loaded, the consumer is created and the listener has
    not failed; every other run ends with an exit status. *)
Theorem main_serves_iff `{A : AuthPkg} `{P : Platform} (flags : Flags) :
  (snd (main flags) = Serving
   ↔ setupLogger ≠ None
     ∧ getRBACConfig ToLower Environ ≠ None
     ∧ snd (getPublicKey flags) = None
     ∧ kgo_NewClient (consumerOpts flags) = None
     ∧ ListenAndServe (getServerAddress flags) = None)
  ∧ (snd (main flags) = Serving ↔ exitCode (snd (main flags)) = None)
  ∧ (snd (main flags) = Serving →
     fst (main flags)
     = [ EvKgoNewClient (consumerOpts flags);
         EvLog zerolog.InfoLevel "Starting rango..." [];
         EvLog zerolog.DebugLevel "Listenning on %s"
           [ArgStr (getServerAddress flags)] ]).
Proof.
  split; [|split].
  - unfold main. destruct setupLogger; [|by split; [|intros [? _]]].
    destruct (getRBACConfig ToLower Environ); [|by split; [|intros (_ & ? & _)]].
    destruct (getPublicKey flags) as [pub [e|]]; simpl;
      [by split; [|intros (_ & _ & ? & _)]|].
    destruct (kgo_NewClient (consumerOpts flags)); simpl;
      [by split; [|intros (_ & _ & _ & ? & _)]|].
    destruct (ListenAndServe (getServerAddress flags)); simpl;
      [by split; [|intros (_ & _ & _ & _ & ?)]|done].
  - destruct (snd (main flags)); simpl; split; done.
  - unfold main. destruct setupLogger; [|done].
    destruct (getRBACConfig ToLower Environ); [|done].
    destruct (getPublicKey flags) as [pub [e|]]; [done|].
    destruct (kgo_NewClient (consumerOpts flags)); [done|].
    by destruct (ListenAndServe (getServerAddress flags)).
Qed.

Lemma main_serves_iff_witness :
  fst (main (A := demoAuth) (P := demoPlatform demoVars None None) defaultFlags)
  = [ EvKgoNewClient
        (consumerOpts (P := demoPlatform demoVars None None) defaultFlags);
      EvLog zerolog.InfoLevel "Starting rango..." [];
      EvLog zerolog.DebugLevel "Listenning on %s" [ArgStr "0.0.0.0:8080"] ].
Proof.
  destruct (main_serves_iff (A := demoAuth)
    (P := demoPlatform demoVars None None) defaultFlags) as (_ & _ & H).
  apply H. reflexivity.
Defined.

(** ** More on the ingest loop *)

(** X16.  The records reach the Hub in the order the fetches deliver them,
    each as often as it was fetched, and the commits follow in the same
    order: both sequences are the records of the polls, concatenated.
    Records of a fetch that also carries errors are not skipped. *)
Theorem ingest_keeps_fetch_order `{P : Platform} (fuel n : nat) :
  received (ingestLoop fuel n) = fetched fuel n
  ∧ committed (ingestLoop fuel n) = fetched fuel n.
Proof.
  revert n. induction fuel as [|fuel IH]; intros n; [done|].
  cbn [ingestLoop fetched]. rewrite received_app, committed_app.
  destruct (ingestTurn_projections (PollFetches n)) as (-> & -> & _).
  destruct (IH (S n)) as [-> ->]. done.
Qed.

(** X18.  The trace of the loop holds one poll per turn, one log line per
    fetch error, one handoff and one commit per fetched record, and nothing
    else: every event is of one of these four kinds and the length of the
    trace is the sum of their numbers.  A run without fetch errors logs
    nothing. *)
Theorem ingest_trace_accounting `{P : Platform} (fuel n : nat) :
  List.length (List.filter isPoll (ingestLoop fuel n)) = fuel
  ∧ List.length (List.filter isLog (ingestLoop fuel n)) = fetchErrors fuel n
  ∧ List.length (received (ingestLoop fuel n)) = List.length (fetched fuel n)
  ∧ List.length (committed (ingestLoop fuel n)) = List.length (fetched fuel n)
  ∧ List.length (ingestLoop fuel n)
    = (fuel + fetchErrors fuel n + 2 * List.length (fetched fuel n))%nat
  ∧ (∀ ev, ev ∈ ingestLoop fuel n →
       ev = EvPollFetches
       ∨ (∃ i fe, ev = logFetchError i fe)
       ∨ (∃ r, ev = EvReceiveMsg r ∨ ev = EvCommitRecords r))
  ∧ (fetchErrors fuel n = 0%nat →
     ∀ lvl fmt args, EvLog lvl fmt args ∉ ingestLoop fuel n).
Proof.
  assert (List.length (ingestLoop fuel n)
          = (fuel + fetchErrors fuel n + 2 * List.length (fetched fuel n))%nat
          ∧ List.length (List.filter isLog (ingestLoop fuel n))
            = fetchErrors fuel n
          ∧ received (ingestLoop fuel n) = fetched fuel n
          ∧ committed (ingestLoop fuel n) = fetched fuel n)
    as (Hlen & Hlog & Hrec & Hcom).
  { revert n. induction fuel as [|fuel IH]; intros n; [done|].
    cbn [ingestLoop fetched fetchErrors].
    destruct (ingestTurn_projections (PollFetches n)) as (Hr & Hc & Hl & Hn).
    destruct (IH (S n)) as (IH1 & IH2 & IH3 & IH4).
    rewrite received_app, committed_app, Hr, Hc, IH3, IH4.
    rewrite List.filter_app, !length_app, Hn, Hl, length_imap, IH1, IH2.
    repeat split; lia. }
  split; [apply ingestLoop_polls|]. split; [done|].
  split; [by rewrite Hrec|]. split; [by rewrite Hcom|]. split; [done|]. split.
  - intros ev (k & _ & Hin)%ingestLoop_elem.
    apply ingestTurn_elem in Hin as [->|[(i & fe & _ & ->)|(r & _ & Hev)]];
      [by left | right; left; eauto | right; right; eauto].
  - intros Hzero lvl fmt args Hin. rewrite Hzero in Hlog.
    assert (In (EvLog lvl fmt args) (List.filter isLog (ingestLoop fuel n)))
      as Hf.
    { apply List.filter_In. split; [by apply list_elem_of_In | done]. }
    destruct (List.filter isLog (ingestLoop fuel n)); [done | discriminate].
Qed.

Lemma ingest_trace_accounting_witness :
  fetchErrors (P := demoPlatform demoVars None None) 3 1 = 0%nat
  ∧ EvLog zerolog.ErrorLevel "Fetch error %d: %v"
      [ArgInt 0; ArgStr "broker unreachable"]
    ∉ ingestLoop (P := demoPlatform demoVars None None) 3 1.
Proof.
  split; [reflexivity|].
  destruct (ingest_trace_accounting
    (P := demoPlatform demoVars None None) 3 1) as (_ & _ & _ & _ & _ & _ & H).
  apply H. reflexivity.
Defined.
